(** * Gale: release normalisation, byte formatting and argument resolution

    A shallow embedding of [main.go] of the gale command-line tool, and
    the properties of it that its specification states.

    Conventions of the embedding.
    - Go's [int] and [int64] are [Z] restricted to the 64-bit signed range
      ([int64_range]); arithmetic that Go performs in 64 bits is written
      with [wrap64].
    - [float64] is binary64 as [SpecFloat] specifies it, with 53 bits of
      precision and round to nearest, ties to even.
    - Go strings are byte strings: [string] of [ascii].
    - A Go slice is [slice A]: either the nil slice or a backing list.
    - A function that can panic returns [outcome A]; a function that prints,
      exits or writes files is a computation [M A] over the state [proc] of
      the process, whose inputs from outside are gathered in [Env].
    - The parts of Go's standard library that decide the behaviour of the
      program are modelled next to it: the verbs [%d] and [%.1f] of [fmt],
      [ParseInt] and [ParseBool] of [strconv], and the flag set of [flag]
      with its [ExitOnError] handling.  JSON coding, path resolution and
      file writing stay parameters of [Env]. *)

From Stdlib Require Import ZArith String Ascii List Bool Lia.
From Stdlib Require Import Numbers.DecimalString Floats.SpecFloat.
From stdpp Require Import base option list strings gmap.

Local Open Scope string_scope.
Local Open Scope Z_scope.

(** ** Machine integers *)

Module Int64.

Definition min_int : Z := - 2 ^ 63.
Definition max_int : Z := 2 ^ 63 - 1.

Definition int64_range (z : Z) : Prop := min_int <= z <= max_int.

(** Two's complement wrap-around of a 64-bit signed operation. *)
Definition wrap64 (z : Z) : Z := (z + 2 ^ 63) mod 2 ^ 64 - 2 ^ 63.

End Int64.
Export Int64.

(** ** Outcomes of code that may not return *)

(** [Panic] is a run-time panic, [Exit] a call of [os.Exit], [Timeout] a
    loop of the model that ran out of its iteration bound. *)
Inductive outcome (A : Type) : Type :=
  | Ok (a : A)
  | Panic (msg : string)
  | Exit (code : Z)
  | Timeout.
Arguments Ok {A} a.
Arguments Panic {A} msg.
Arguments Exit {A} code.
Arguments Timeout {A}.

Definition obind {A B} (m : outcome A) (k : A -> outcome B) : outcome B :=
  match m with
  | Ok a => k a
  | Panic msg => Panic msg
  | Exit code => Exit code
  | Timeout => Timeout
  end.

Notation "'let*' x ':=' m 'in' k" := (obind m (fun x => k))
  (at level 10, x name, m at level 100, k at level 200).

(** ** Formatting verbs of [fmt.Sprintf] used by the program *)

Module Fmt.

(** [%d] of an integer: decimal digits, with a leading minus sign for a
    negative value. *)
Definition fmt_d (z : Z) : string := NilZero.string_of_int (Z.to_int z).

(** [float64(x)] for an integer [x]: rounding to the nearest binary64,
    ties to even. *)
Definition float64_of_int (z : Z) : spec_float := binary_normalize 53 1024 z 0 false.

(** Division of two binary64 values. *)
Definition float64_div (x y : spec_float) : spec_float := SFdiv 53 1024 x y.

(** The quotient [num / den] rounded to the nearest integer, ties to even. *)
Definition round_half_even (num den : Z) : Z :=
  let q := num / den in
  let r := num mod den in
  match 2 * r ?= den with
  | Lt => q
  | Gt => q + 1
  | Eq => if Z.even q then q else q + 1
  end.

(** The exact value of a finite binary64 magnitude [m * 2^e], multiplied by
    ten and rounded to the nearest integer, ties to even: the digits that
    [strconv] keeps for a precision of one. *)
Definition tenths (m : positive) (e : Z) : Z :=
  if 0 <=? e then 10 * Z.pos m * 2 ^ e
  else round_half_even (10 * Z.pos m) (2 ^ (- e)).

(** One decimal digit as a character. *)
Definition digit_char (d : Z) : ascii := ascii_of_nat (48 + Z.to_nat d).

(** A non-negative number of tenths as [<integer part>.<one digit>]. *)
Definition fixed1 (t : Z) : string :=
  fmt_d (t / 10) +:+ "." +:+ String (digit_char (t mod 10)) "".

(** [%.1f] of a binary64. *)
Definition fmt_f1 (x : spec_float) : string :=
  match x with
  | S754_nan => "NaN"
  | S754_infinity false => "+Inf"
  | S754_infinity true => "-Inf"
  | S754_zero false => "0.0"
  | S754_zero true => "-0.0"
  | S754_finite false m e => fixed1 (tenths m e)
  | S754_finite true m e => "-" +:+ fixed1 (tenths m e)
  end.

End Fmt.
Export Fmt.

(** Indexing a string by a byte position, [s[i]]: panics out of range. *)
Definition string_index (s : string) (i : Z) : outcome ascii :=
  if (i <? 0) || (Z.of_nat (String.length s) <=? i) then
    Panic "index out of range"
  else
    match String.get (Z.to_nat i) s with
    | Some c => Ok c
    | None => Panic "index out of range"
    end.

(** ** formatBytes *)

Definition unit : Z := 1024.

(** The loop [for n := bytes / unit; n >= unit; n /= unit { div *= unit; exp++ }],
    entered with the current [n], [div] and [exp]; it answers the final
    [(div, exp)].  The recursion is bounded by [fuel] iterations. *)
Fixpoint unit_loop (fuel : nat) (n div exp : Z) : option (Z * Z) :=
  if n >=? unit then
    match fuel with
    | O => None
    | S fuel' => unit_loop fuel' (n ÷ unit) (wrap64 (div * unit)) (wrap64 (exp + 1))
    end
  else Some (div, exp).

(** Each iteration removes ten bits of a 64-bit value. *)
Definition loop_bound : nat := 64.

Definition formatBytes (bytes : Z) : outcome string :=
  if bytes =? 0 then Ok "0 B"
  else if bytes <? unit then Ok (fmt_d bytes +:+ " B")
  else
    match unit_loop loop_bound (bytes ÷ unit) unit 0 with
    | None => Timeout
    | Some (div, exp) =>
        let q := float64_div (float64_of_int bytes) (float64_of_int div) in
        let* c := string_index "KMGTPE" exp in
        Ok (fmt_f1 q +:+ " " +:+ String c "B")
    end.

(** ** Slices *)

Module Slice.

Inductive slice (A : Type) : Type :=
  | nil_slice
  | Slice (elems : list A).
Arguments nil_slice {A}.
Arguments Slice {A} elems.

Definition elems {A} (s : slice A) : list A :=
  match s with
  | nil_slice => []
  | Slice l => l
  end.

Definition len {A} (s : slice A) : nat := length (elems s).

(** [make([]T, n)]: a non-nil slice of [n] zero values. *)
Definition make {A} (zero : A) (n : nat) : slice A := Slice (replicate n zero).

(** [s[i] = v]: panics when [i] is out of range. *)
Definition store {A} (s : slice A) (i : nat) (v : A) : outcome (slice A) :=
  if decide (i < len s)%nat then Ok (Slice (<[i := v]> (elems s)))
  else Panic "index out of range".

(** [for i, x := range s { body }], threading the variables the body
    assigns as [st]; [i] counts from the index of the first element. *)
Fixpoint range_from {A St} (i : nat) (l : list A)
    (body : nat -> A -> St -> outcome St) (st : St) : outcome St :=
  match l with
  | [] => Ok st
  | x :: l' => let* st' := body i x st in range_from (S i) l' body st'
  end.

Definition range {A St} (s : slice A) (body : nat -> A -> St -> outcome St) (st : St)
    : outcome St :=
  range_from 0 (elems s) body st.

End Slice.
Export Slice.

(** ** Data model *)

(** [time.Time]: an instant, which the program only copies and prints. *)
Definition Time : Type := Z.
Definition zero_time : Time := 0.

Module GraphQLError.
Record t := mk { Message : string }.
End GraphQLError.

Module AssetNode.
Record t := mk {
  ID : string;
  Name : string;
  Size : Z;
  DownloadURL : string;
  ContentType : string }.
End AssetNode.

Module ReleaseAssets.
Record t := mk {
  TotalCount : Z;
  Nodes : slice AssetNode.t }.
End ReleaseAssets.

Module ReleaseNode.
Record t := mk {
  ID : string;
  Name : string;
  TagName : string;
  PublishedAt : Time;
  IsPrerelease : bool;
  IsDraft : bool;
  URL : string;
  Description : string;
  ReleaseAssets : ReleaseAssets.t }.
End ReleaseNode.

Module Releases.
Record t := mk {
  TotalCount : Z;
  Nodes : slice ReleaseNode.t }.
End Releases.

Module Repository.
Record t := mk { Releases : Releases.t }.
End Repository.

(** The pointers [*GraphQLData] and [*Repository] are options: [None] is
    the nil pointer. *)
Module GraphQLData.
Record t := mk { Repository : option Repository.t }.
End GraphQLData.

Module GraphQLResponse.
Record t := mk {
  Data : option GraphQLData.t;
  Errors : slice GraphQLError.t }.
End GraphQLResponse.

Module NormalizedAsset.
Record t := mk {
  ID : string;
  Name : string;
  Size : Z;
  SizeFormatted : string;
  ContentType : string;
  DownloadURL : string }.
Definition zero : t := mk "" "" 0 "" "" "".
End NormalizedAsset.

Module NormalizedRelease.
Record t := mk {
  ID : string;
  Name : string;
  Version : string;
  PublishedAt : Time;
  IsPrerelease : bool;
  IsDraft : bool;
  URL : string;
  Description : string;
  DownloadCount : Z;
  Assets : slice NormalizedAsset.t }.
Definition zero : t := mk "" "" "" zero_time false false "" "" 0 nil_slice.
End NormalizedRelease.

Module Metadata.
Record t := mk {
  FetchedAt : string;
  FetchedBy : string;
  Author : string;
  URL : string }.
End Metadata.

Module RepoInfo.
Record t := mk {
  Owner : string;
  Repo : string;
  URL : string;
  TotalReleases : Z;
  FetchedReleases : Z }.
End RepoInfo.

Module OutputFile.
Record t := mk {
  Metadata : Metadata.t;
  Repository : RepoInfo.t;
  Releases : slice NormalizedRelease.t }.
End OutputFile.

Module Config.
Record t := mk {
  Owner : string;
  Repo : string;
  Count : Z;
  Output : string;
  Token : string;
  Quiet : bool;
  Help : bool;
  Version : bool }.
Definition zero : t := mk "" "" 0 "" "" false false false.
End Config.

(** ** normalizeData *)

(** The name of a release: its own, else its tag, else a fixed text. *)
Definition release_name (node : ReleaseNode.t) : string :=
  let name := ReleaseNode.Name node in
  let name := if String.eqb name "" then ReleaseNode.TagName node else name in
  let name := if String.eqb name "" then "Unnamed Release" else name in
  name.

(** The inner loop of [normalizeData] over the assets of one release. *)
Definition normalize_assets (nodes : slice AssetNode.t) : outcome (slice NormalizedAsset.t) :=
  let assets := make NormalizedAsset.zero (len nodes) in
  range nodes (fun j asset assets =>
    let* formatted := formatBytes (AssetNode.Size asset) in
    store assets j {|
      NormalizedAsset.ID := AssetNode.ID asset;
      NormalizedAsset.Name := AssetNode.Name asset;
      NormalizedAsset.Size := AssetNode.Size asset;
      NormalizedAsset.SizeFormatted := formatted;
      NormalizedAsset.ContentType := AssetNode.ContentType asset;
      NormalizedAsset.DownloadURL := AssetNode.DownloadURL asset |}) assets.

Definition normalizeData (nodes : slice ReleaseNode.t) : outcome (slice NormalizedRelease.t) :=
  let releases := make NormalizedRelease.zero (len nodes) in
  range nodes (fun i node releases =>
    let name := release_name node in
    let* assets := normalize_assets (ReleaseAssets.Nodes (ReleaseNode.ReleaseAssets node)) in
    store releases i {|
      NormalizedRelease.ID := ReleaseNode.ID node;
      NormalizedRelease.Name := name;
      NormalizedRelease.Version := ReleaseNode.TagName node;
      NormalizedRelease.PublishedAt := ReleaseNode.PublishedAt node;
      NormalizedRelease.IsPrerelease := ReleaseNode.IsPrerelease node;
      NormalizedRelease.IsDraft := ReleaseNode.IsDraft node;
      NormalizedRelease.URL := ReleaseNode.URL node;
      NormalizedRelease.Description := ReleaseNode.Description node;
      NormalizedRelease.DownloadCount :=
        ReleaseAssets.TotalCount (ReleaseNode.ReleaseAssets node);
      NormalizedRelease.Assets := assets |}) releases.

(** ** The process: its observable effects and its inputs *)

(** Why package [flag] rejected a command line. *)
Inductive flag_error : Type :=
  | BadSyntax (arg : string)
  | NotDefined (name : string)
  | ErrHelp
  | NeedsArgument (name : string)
  | InvalidValue (value name : string)
  | InvalidBool (value name : string).

(** What the process prints or sends, in order.  Texts that only depend on
    colours and icons are kept as constructors with their arguments. *)
Inductive event : Type :=
  | PrintBanner
  | PrintHelp
  | PrintVersion
  | PrintFlagError (e : flag_error)
  | WarnNoToken
  | SpinnerStart (count : Z) (owner repo : string)
  | SpinnerStop
  | HttpPost (owner repo : string) (first : Z) (token : string)
  | WarnClose (msg : string)
  | InfoFound (fetched : Z) (total : Z)
  | InfoLatest (version : string) (published : Time)
  | PrintSuccess (saved : Z) (output : string)
  | PrintPath (path : string)
  | PrintError (msg : string).

(** The state of the process: what it has emitted so far, oldest first,
    and the files on disk. *)
Record proc : Type := mkProc {
  trace : list event;
  files : gmap string string }.

(** The answer of [httpClient.Do]: an error, or a response with its status
    code, the bytes of its body and the error of closing the body, if any. *)
Inductive http_outcome : Type :=
  | TransportError (msg : string)
  | Response (status : Z) (body : string) (close_err : option string).

(** A Go [(value, error)] pair: the error text or the value. *)
Definition result (A : Type) : Type := string + A.

(** What the run receives from outside: the command line after the program
    name, the environment, the remote's answer to the request (owner, repo,
    count, token), the formatted time of the clock, and the library calls
    that the model leaves open: decoding and encoding JSON, resolving a
    path, the quoting of [%q], and writing a file. *)
Record Env : Type := mkEnv {
  os_Args : list string;
  os_Environ : list (string * string);
  http_Do : string -> string -> Z -> string -> http_outcome;
  json_Decode : string -> result GraphQLResponse.t;
  time_Now : string;
  filepath_Abs : string -> result string;
  json_MarshalIndent : OutputFile.t -> result string;
  strconv_Quote : string -> string;
  os_WriteFile : gmap string string -> string -> string ->
                 gmap string string * option string }.

(** [os.Getenv]: the value of the first entry for [key], empty when unset. *)
Definition Getenv (env : Env) (key : string) : string :=
  match find (fun kv => String.eqb (fst kv) key) (os_Environ env) with
  | Some kv => snd kv
  | None => ""
  end.

(** Computations of the process: state passing over [proc], ending in an
    [outcome]. *)
Definition M (A : Type) : Type := proc -> proc * outcome A.

Definition ret {A} (a : A) : M A := fun st => (st, Ok a).

Definition bind {A B} (m : M A) (k : A -> M B) : M B :=
  fun st =>
    match m st with
    | (st', Ok a) => k a st'
    | (st', Panic msg) => (st', Panic msg)
    | (st', Exit code) => (st', Exit code)
    | (st', Timeout) => (st', Timeout)
    end.

Notation "'let!' x ':=' m 'in' k" := (bind m (fun x => k))
  (at level 10, x name, m at level 100, k at level 200).

Definition lift {A} (o : outcome A) : M A := fun st => (st, o).

Definition emit (e : event) : M ()%type :=
  fun st => (mkProc (trace st ++ [e]) (files st), Ok tt).

Definition os_Exit {A} (code : Z) : M A := fun st => (st, Exit code).

Definition when (b : bool) (m : M ()%type) : M ()%type := if b then m else ret tt.

(** ** Package strconv: the parsers behind flag values *)

Module Strconv.

Inductive num_error : Type := ErrSyntax | ErrRange.

Definition byte_val (c : ascii) : Z := Z.of_N (N_of_ascii c).

(** [lower(c) = c | ('x' - 'X')]. *)
Definition lower (c : ascii) : Z := Z.lor (byte_val c) 32.

Definition ParseBool (s : string) : option bool :=
  if existsb (String.eqb s) ["1"; "t"; "T"; "TRUE"; "true"; "True"] then Some true
  else if existsb (String.eqb s) ["0"; "f"; "F"; "FALSE"; "false"; "False"] then Some false
  else None.

Definition maxUint64 : Z := 2 ^ 64 - 1.

(** The prefix of a literal parsed with base 0: the base and the digits. *)
Definition base_prefix (s : string) : Z * string :=
  match s with
  | String "0" rest =>
      match rest with
      | String c digits =>
          if (3 <=? Z.of_nat (String.length s)) && (lower c =? 98) then (2, digits)
          else if (3 <=? Z.of_nat (String.length s)) && (lower c =? 111) then (8, digits)
          else if (3 <=? Z.of_nat (String.length s)) && (lower c =? 120) then (16, digits)
          else (8, rest)
      | EmptyString => (8, rest)
      end
  | _ => (10, s)
  end.

(** The digit loop of [ParseUint] with base 0 and 64 bits; it answers the
    number and whether an underscore was seen. *)
Fixpoint parse_digits (base : Z) (s : string) (n : Z) (underscores : bool)
    : num_error + (Z * bool) :=
  match s with
  | EmptyString => inr (n, underscores)
  | String c s' =>
      if byte_val c =? 95 then parse_digits base s' n true
      else
        let d :=
          if (48 <=? byte_val c) && (byte_val c <=? 57) then Some (byte_val c - 48)
          else if (97 <=? lower c) && (lower c <=? 122) then Some (lower c - 97 + 10)
          else None in
        match d with
        | None => inl ErrSyntax
        | Some d =>
            if d >=? base then inl ErrSyntax
            else if n >=? maxUint64 / base + 1 then inl ErrRange
            else
              let n := (n * base) mod 2 ^ 64 in
              let n1 := (n + d) mod 2 ^ 64 in
              if (n1 <? n) || (n1 >? maxUint64) then inl ErrRange
              else parse_digits base s' n1 underscores
        end
  end.

(** The last character seen by [underscoreOK]. *)
Inductive saw : Type := SawStart | SawDigit | SawUnderscore | SawOther.

Fixpoint underscore_scan (hex : bool) (s : string) (last : saw) : bool :=
  match s with
  | EmptyString => match last with SawUnderscore => false | _ => true end
  | String c s' =>
      if ((48 <=? byte_val c) && (byte_val c <=? 57))
         || (hex && (97 <=? lower c) && (lower c <=? 102))
      then underscore_scan hex s' SawDigit
      else if byte_val c =? 95 then
        match last with
        | SawDigit => underscore_scan hex s' SawUnderscore
        | _ => false
        end
      else
        match last with
        | SawUnderscore => false
        | _ => underscore_scan hex s' SawOther
        end
  end.

(** [underscoreOK]: underscores only between digits, or between a base
    prefix and a digit. *)
Definition underscoreOK (s : string) : bool :=
  let s :=
    match s with
    | String c s' => if (byte_val c =? 45) || (byte_val c =? 43) then s' else s
    | EmptyString => s
    end in
  match s with
  | String "0" (String c s') =>
      if (lower c =? 98) || (lower c =? 111) || (lower c =? 120)
      then underscore_scan (lower c =? 120) s' SawDigit
      else underscore_scan false s SawStart
  | _ => underscore_scan false s SawStart
  end.

(** [ParseUint(s, 0, 64)]. *)
Definition ParseUint (s : string) : num_error + Z :=
  match s with
  | EmptyString => inl ErrSyntax
  | _ =>
      let '(base, digits) := base_prefix s in
      match parse_digits base digits 0 false with
      | inl e => inl e
      | inr (n, underscores) =>
          if underscores && negb (underscoreOK s) then inl ErrSyntax else inr n
      end
  end.

(** [ParseInt(s, 0, 64)]: an optional sign, then [ParseUint], then the
    range of a 64-bit signed integer. *)
Definition ParseInt (s : string) : num_error + Z :=
  match s with
  | EmptyString => inl ErrSyntax
  | String c s' =>
      let neg := byte_val c =? 45 in
      let s := if (byte_val c =? 43) || neg then s' else s in
      match ParseUint s with
      | inl e => inl e
      | inr un =>
          let cutoff := 2 ^ 63 in
          if negb neg && (un >=? cutoff) then inl ErrRange
          else if neg && (un >? cutoff) then inl ErrRange
          else
            let n := wrap64 un in
            inr (if neg then wrap64 (- n) else n)
      end
  end.

End Strconv.

(** ** Package flag: the flag set behind [flag.Parse] *)

Module Flag.

(** A flag value writes into the variable it was defined with; [St] holds
    those variables, and a value is the assignment it performs on a
    parsed argument. *)
Inductive Value (St : Type) : Type :=
  | intValue (set : Z -> St -> St)
  | stringValue (set : string -> St -> St)
  | boolValue (set : bool -> St -> St).
Arguments intValue {St} set.
Arguments stringValue {St} set.
Arguments boolValue {St} set.

Definition IsBoolFlag {St} (v : Value St) : bool :=
  match v with
  | boolValue _ => true
  | _ => false
  end.

(** [Value.Set]: [None] when the text does not parse. *)
Definition Set_ {St} (v : Value St) (s : string) (st : St) : option St :=
  match v with
  | intValue set =>
      match Strconv.ParseInt s with
      | inr z => Some (set z st)
      | inl _ => None
      end
  | stringValue set => Some (set s st)
  | boolValue set =>
      match Strconv.ParseBool s with
      | Some b => Some (set b st)
      | None => None
      end
  end.

Record FlagSet (St : Type) : Type := mkFlagSet {
  formal : gmap string (Value St);
  args : list string;
  vars : St }.
Arguments mkFlagSet {St} formal args vars.
Arguments formal {St} f.
Arguments args {St} f.
Arguments vars {St} f.

Definition NewFlagSet {St} (st : St) : FlagSet St := mkFlagSet ∅ [] st.

(** [FlagSet.Var]: defining a name twice panics. *)
Definition Var {St} (v : Value St) (name : string) (f : FlagSet St)
    : outcome (FlagSet St) :=
  match formal f !! name with
  | Some _ => Panic ("flag redefined: " +:+ name)
  | None => Ok (mkFlagSet (<[name := v]> (formal f)) (args f) (vars f))
  end.

(** [IntVar], [StringVar] and [BoolVar] first store the default value in
    the variable, then define the flag. *)
Definition IntVar {St} (set : Z -> St -> St) (name : string) (value : Z)
    (f : FlagSet St) : outcome (FlagSet St) :=
  Var (intValue set) name (mkFlagSet (formal f) (args f) (set value (vars f))).

Definition StringVar {St} (set : string -> St -> St) (name : string) (value : string)
    (f : FlagSet St) : outcome (FlagSet St) :=
  Var (stringValue set) name (mkFlagSet (formal f) (args f) (set value (vars f))).

Definition BoolVar {St} (set : bool -> St -> St) (name : string) (value : bool)
    (f : FlagSet St) : outcome (FlagSet St) :=
  Var (boolValue set) name (mkFlagSet (formal f) (args f) (set value (vars f))).

(** The answer of [parseOne]: a flag was seen, parsing is over, or it
    failed. *)
Inductive step : Type :=
  | Seen
  | Done
  | Failed (e : flag_error).

(** [name = value] split at the first [=] that is not the first byte. *)
Fixpoint split_equals (first : bool) (name : string) : string * option string :=
  match name with
  | EmptyString => (EmptyString, None)
  | String c rest =>
      if negb first && (Strconv.byte_val c =? 61) then (EmptyString, Some rest)
      else
        let '(n, v) := split_equals false rest in
        (String c n, v)
  end.

Definition starts_with (c : Z) (s : string) : bool :=
  match s with
  | String c' _ => Strconv.byte_val c' =? c
  | EmptyString => false
  end.

Definition parseOne {St} (f : FlagSet St) : FlagSet St * step :=
  match args f with
  | [] => (f, Done)
  | s :: rest =>
      if (Z.of_nat (String.length s) <? 2) || negb (starts_with 45 s) then (f, Done)
      else
        let two := starts_with 45 (String.substring 1 1 s) in
        if two && (Z.of_nat (String.length s) =? 2) then
          (mkFlagSet (formal f) rest (vars f), Done)
        else
          let numMinuses := if two then 2%nat else 1%nat in
          let name := String.substring numMinuses (String.length s - numMinuses) s in
          if (Z.of_nat (String.length name) =? 0) || starts_with 45 name
             || starts_with 61 name
          then (f, Failed (BadSyntax s))
          else
            let f := mkFlagSet (formal f) rest (vars f) in
            let '(name, value) := split_equals true name in
            match formal f !! name with
            | None =>
                if String.eqb name "help" || String.eqb name "h"
                then (f, Failed ErrHelp)
                else (f, Failed (NotDefined name))
            | Some flag =>
                if IsBoolFlag flag then
                  match value with
                  | Some value =>
                      match Set_ flag value (vars f) with
                      | Some st => (mkFlagSet (formal f) (args f) st, Seen)
                      | None => (f, Failed (InvalidBool value name))
                      end
                  | None =>
                      match Set_ flag "true" (vars f) with
                      | Some st => (mkFlagSet (formal f) (args f) st, Seen)
                      | None => (f, Failed (InvalidBool "true" name))
                      end
                  end
                else
                  let '(value, f) :=
                    match value, args f with
                    | None, next :: rest' =>
                        (Some next, mkFlagSet (formal f) rest' (vars f))
                    | _, _ => (value, f)
                    end in
                  match value with
                  | None => (f, Failed (NeedsArgument name))
                  | Some value =>
                      match Set_ flag value (vars f) with
                      | Some st => (mkFlagSet (formal f) (args f) st, Seen)
                      | None => (f, Failed (InvalidValue value name))
                      end
                  end
            end
  end.

(** The loop of [FlagSet.Parse] under [ExitOnError]: a failure prints its
    message (none for [ErrHelp]) and the usage, then exits with status 0
    for [ErrHelp] and 2 otherwise. *)
Fixpoint parse_loop {St} (fuel : nat) (usage : M ()%type) (f : FlagSet St)
    : M (FlagSet St) :=
  match parseOne f with
  | (f', Done) => ret f'
  | (f', Failed e) =>
      let! _ := match e with
                | ErrHelp => ret tt
                | _ => emit (PrintFlagError e)
                end in
      let! _ := usage in
      os_Exit (match e with ErrHelp => 0 | _ => 2 end)
  | (f', Seen) =>
      match fuel with
      | O => lift Timeout
      | S fuel' => parse_loop fuel' usage f'
      end
  end.

(** [Parse(arguments)]: every flag seen consumes at least one argument. *)
Definition Parse {St} (usage : M ()%type) (f : FlagSet St) (arguments : list string)
    : M (FlagSet St) :=
  parse_loop (length arguments) usage (mkFlagSet (formal f) arguments (vars f)).

(** [Args]: the arguments left after the flags. *)
Definition Args {St} (f : FlagSet St) : list string := args f.

End Flag.

(** ** The program *)

Definition version : string := "4.5.0".

Definition showBanner : M ()%type := emit PrintBanner.

Definition showHelp : M ()%type := emit PrintHelp.

Definition set_Owner (v : string) (c : Config.t) : Config.t :=
  Config.mk v (Config.Repo c) (Config.Count c) (Config.Output c) (Config.Token c)
    (Config.Quiet c) (Config.Help c) (Config.Version c).
Definition set_Repo (v : string) (c : Config.t) : Config.t :=
  Config.mk (Config.Owner c) v (Config.Count c) (Config.Output c) (Config.Token c)
    (Config.Quiet c) (Config.Help c) (Config.Version c).
Definition set_Count (v : Z) (c : Config.t) : Config.t :=
  Config.mk (Config.Owner c) (Config.Repo c) v (Config.Output c) (Config.Token c)
    (Config.Quiet c) (Config.Help c) (Config.Version c).
Definition set_Output (v : string) (c : Config.t) : Config.t :=
  Config.mk (Config.Owner c) (Config.Repo c) (Config.Count c) v (Config.Token c)
    (Config.Quiet c) (Config.Help c) (Config.Version c).
Definition set_Token (v : string) (c : Config.t) : Config.t :=
  Config.mk (Config.Owner c) (Config.Repo c) (Config.Count c) (Config.Output c) v
    (Config.Quiet c) (Config.Help c) (Config.Version c).
Definition set_Quiet (v : bool) (c : Config.t) : Config.t :=
  Config.mk (Config.Owner c) (Config.Repo c) (Config.Count c) (Config.Output c)
    (Config.Token c) v (Config.Help c) (Config.Version c).
Definition set_Help (v : bool) (c : Config.t) : Config.t :=
  Config.mk (Config.Owner c) (Config.Repo c) (Config.Count c) (Config.Output c)
    (Config.Token c) (Config.Quiet c) v (Config.Version c).
Definition set_Version (v : bool) (c : Config.t) : Config.t :=
  Config.mk (Config.Owner c) (Config.Repo c) (Config.Count c) (Config.Output c)
    (Config.Token c) (Config.Quiet c) (Config.Help c) v.

Definition parseArgs (env : Env) : M Config.t :=
  let f := Flag.NewFlagSet Config.zero in
  let! f := lift (Flag.IntVar set_Count "count" 10 f) in
  let! f := lift (Flag.IntVar set_Count "c" 10 f) in
  let! f := lift (Flag.StringVar set_Output "output" "releases.json" f) in
  let! f := lift (Flag.StringVar set_Output "o" "releases.json" f) in
  let! f := lift (Flag.StringVar set_Token "token" (Getenv env "GITHUB_TOKEN") f) in
  let! f := lift (Flag.StringVar set_Token "t" (Getenv env "GITHUB_TOKEN") f) in
  let! f := lift (Flag.BoolVar set_Quiet "quiet" false f) in
  let! f := lift (Flag.BoolVar set_Quiet "q" false f) in
  let! f := lift (Flag.BoolVar set_Help "help" false f) in
  let! f := lift (Flag.BoolVar set_Help "h" false f) in
  let! f := lift (Flag.BoolVar set_Version "version" false f) in
  let! f := lift (Flag.BoolVar set_Version "v" false f) in
  let! f := Flag.Parse showHelp f (os_Args env) in
  let args := Flag.Args f in
  let cfg := Flag.vars f in
  let cfg := set_Owner "Typeflu" cfg in
  let cfg := set_Repo "gale" cfg in
  let cfg := match args with
             | a0 :: _ => set_Owner a0 cfg
             | [] => cfg
             end in
  let cfg := match args with
             | _ :: a1 :: _ => set_Repo a1 cfg
             | _ => cfg
             end in
  ret cfg.

Definition nl : string := String (ascii_of_nat 10) "".

(** One POST of the query; the deferred close of the body runs last. *)
Definition fetchGraphQL (env : Env) (owner repo : string) (first : Z) (token : string)
    : M (result GraphQLResponse.t) :=
  let! _ := emit (HttpPost owner repo first token) in
  match http_Do env owner repo first token with
  | TransportError msg =>
      ret (inl ("failed to send request to GitHub API: " +:+ msg))
  | Response status body close_err =>
      let res : result GraphQLResponse.t :=
        if status >=? 400 then
          inl ("GitHub API responded with status " +:+ fmt_d status +:+ ": " +:+ body)
        else
          match json_Decode env body with
          | inl err => inl ("failed to decode GitHub API response: " +:+ err)
          | inr result => inr result
          end in
      let! _ := match close_err with
                | Some err => emit (WarnClose err)
                | None => ret tt
                end in
      ret res
  end.

(** The text built from the error list of a response. *)
Definition errorMessages (errors : slice GraphQLError.t) : string :=
  fold_left (fun acc e => acc +:+ "- " +:+ GraphQLError.Message e +:+ nl)
    (elems errors) "".

(** What [run] does with the fetch result it has received, for the
    configuration [cfg]; [None] is the nil error. *)
Definition run_result (env : Env) (cfg : Config.t) (resultData : result GraphQLResponse.t)
    : M (option string) :=
  match resultData with
  | inl err => ret (Some err)
  | inr result =>
      if (0 <? len (GraphQLResponse.Errors result))%nat then
        ret (Some ("GraphQL returned errors:" +:+ nl
                   +:+ errorMessages (GraphQLResponse.Errors result)))
      else
        match GraphQLResponse.Data result ≫= GraphQLData.Repository with
        | None => ret (Some "repository not found or access denied")
        | Some repoData =>
            let! releases :=
              lift (normalizeData (Releases.Nodes (Repository.Releases repoData))) in
            let total := Releases.TotalCount (Repository.Releases repoData) in
            let! _ := when (negb (Config.Quiet cfg))
                (let! _ := emit (InfoFound (Z.of_nat (len releases)) total) in
                 match elems releases with
                 | latest :: _ =>
                     emit (InfoLatest (NormalizedRelease.Version latest)
                             (NormalizedRelease.PublishedAt latest))
                 | [] => ret tt
                 end) in
            let output := {|
              OutputFile.Metadata := {|
                Metadata.FetchedAt := time_Now env;
                Metadata.FetchedBy := "gale v" +:+ version;
                Metadata.Author := "Saksham Singla (@Typeflu)";
                Metadata.URL := "https://github.com/Typeflu" |};
              OutputFile.Repository := {|
                RepoInfo.Owner := Config.Owner cfg;
                RepoInfo.Repo := Config.Repo cfg;
                RepoInfo.URL := "https://github.com/" +:+ Config.Owner cfg
                                +:+ "/" +:+ Config.Repo cfg;
                RepoInfo.TotalReleases := total;
                RepoInfo.FetchedReleases := Z.of_nat (len releases) |};
              OutputFile.Releases := releases |} in
            match filepath_Abs env (Config.Output cfg) with
            | inl err =>
                ret (Some ("could not resolve path "
                           +:+ strconv_Quote env (Config.Output cfg) +:+ ": " +:+ err))
            | inr outPath =>
                match json_MarshalIndent env output with
                | inl err => ret (Some ("failed to marshal output JSON: " +:+ err))
                | inr file =>
                    let! err := (fun st =>
                      let '(fs, err) := os_WriteFile env (files st) outPath file in
                      (mkProc (trace st) fs, Ok err)) in
                    match err with
                    | Some err =>
                        ret (Some ("failed to write to file " +:+ Config.Output cfg
                                   +:+ ": " +:+ err))
                    | None =>
                        let! _ := emit (PrintSuccess (Z.of_nat (len releases))
                                          (Config.Output cfg)) in
                        let! _ := when (negb (Config.Quiet cfg)) (emit (PrintPath outPath)) in
                        ret None
                    end
                end
            end
        end
  end.

(** [run].  The fetch runs in a goroutine whose only exchange with [run] is
    the one result that [run] waits for, so its effects are placed where
    [run] receives it; the rest of [run] is [run_result]. *)
Definition run (env : Env) : M (option string) :=
  let! cfg := parseArgs env in
  if Config.Help cfg then
    let! _ := showBanner in
    let! _ := showHelp in
    ret None
  else if Config.Version cfg then
    let! _ := emit PrintVersion in
    ret None
  else
    let! _ := when (negb (Config.Quiet cfg)) showBanner in
    let! _ := when (String.eqb (Config.Token cfg) "") (emit WarnNoToken) in
    let! _ := when (negb (Config.Quiet cfg))
                (emit (SpinnerStart (Config.Count cfg) (Config.Owner cfg) (Config.Repo cfg))) in
    let! resultData :=
      fetchGraphQL env (Config.Owner cfg) (Config.Repo cfg) (Config.Count cfg)
        (Config.Token cfg) in
    let! _ := emit SpinnerStop in
    run_result env cfg resultData.

Definition main (env : Env) : M ()%type :=
  let! err := run env in
  match err with
  | Some err =>
      let! _ := emit (PrintError err) in
      os_Exit 1
  | None => ret tt
  end.

(** The exit status of the process after [main]: 0 when [main] returns, the
    argument of [os.Exit], 2 after a panic. *)
Definition exit_status (o : outcome ()%type) : option Z :=
  match o with
  | Ok _ => Some 0
  | Exit code => Some code
  | Panic _ => Some 2
  | Timeout => None
  end.

(** * Vocabulary of the statements *)

(** The integer that [float64(b)] denotes for a positive [b]: [b] rounded
    to 53 significant bits, ties to even. *)
Definition float64_value (b : Z) : Z :=
  let k := Z.max 0 (Z.log2 b - 52) in
  round_half_even b (2 ^ k) * 2 ^ k.

(** The rounding record after [j] one-bit right shifts of [b]: the
    quotient, the last bit shifted out, and whether a bit before it was
    set. *)
Definition shifted (b j : Z) (rec : shr_record) : Prop :=
  shr_m rec = b / 2 ^ j /\
  shr_r rec = (if j =? 0 then false else Z.odd (b / 2 ^ (j - 1))) /\
  shr_s rec = (if j =? 0 then false else negb (b mod 2 ^ (j - 1) =? 0)).

(** Texts made of decimal digits only. *)
Definition is_digit (c : ascii) : bool :=
  (48 <=? Z.of_N (N_of_ascii c)) && (Z.of_N (N_of_ascii c) <=? 57).

Fixpoint all_digits (s : string) : bool :=
  match s with
  | EmptyString => true
  | String c s' => is_digit c && all_digits s'
  end.

(** The claim of the specification read on the exact quotient: [b] over
    [1024^d] in tenths, rounded to nearest or cut off, with the unit. *)
Definition exact_nearest_text (b d : Z) (letter : ascii) : string :=
  fixed1 (round_half_even (10 * b) (1024 ^ d)) +:+ " " +:+ String letter "B".

Definition exact_truncated_text (b d : Z) (letter : ascii) : string :=
  fixed1 ((10 * b) / 1024 ^ d) +:+ " " +:+ String letter "B".

(** The state of the loop after [exp] iterations on the input [b]. *)
Definition loop_inv (b n div exp : Z) : Prop :=
  0 <= exp /\ div = 1024 ^ (exp + 1) /\ n = b / div /\
  forall k, 0 <= k <= exp -> 1024 <= b / 1024 ^ k.

(** The unit letters, in the order of the string that the code indexes. *)
Definition unit_letters : list ascii := ["K"; "M"; "G"; "T"; "P"; "E"]%char.

(** A release as [normalizeData] builds it, given the text of each asset
    size. *)
Definition normalized_asset (asset : AssetNode.t) (formatted : string) : NormalizedAsset.t :=
  {| NormalizedAsset.ID := AssetNode.ID asset;
     NormalizedAsset.Name := AssetNode.Name asset;
     NormalizedAsset.Size := AssetNode.Size asset;
     NormalizedAsset.SizeFormatted := formatted;
     NormalizedAsset.ContentType := AssetNode.ContentType asset;
     NormalizedAsset.DownloadURL := AssetNode.DownloadURL asset |}.

Definition normalized_release (node : ReleaseNode.t) (assets : slice NormalizedAsset.t)
    : NormalizedRelease.t :=
  {| NormalizedRelease.ID := ReleaseNode.ID node;
     NormalizedRelease.Name := release_name node;
     NormalizedRelease.Version := ReleaseNode.TagName node;
     NormalizedRelease.PublishedAt := ReleaseNode.PublishedAt node;
     NormalizedRelease.IsPrerelease := ReleaseNode.IsPrerelease node;
     NormalizedRelease.IsDraft := ReleaseNode.IsDraft node;
     NormalizedRelease.URL := ReleaseNode.URL node;
     NormalizedRelease.Description := ReleaseNode.Description node;
     NormalizedRelease.DownloadCount :=
       ReleaseAssets.TotalCount (ReleaseNode.ReleaseAssets node);
     NormalizedRelease.Assets := assets |}.

(** The text of a size, empty where [formatBytes] gives none. *)
Definition size_text (size : Z) : string :=
  match formatBytes size with
  | Ok s => s
  | _ => ""
  end.

(** The assets of a normalised release. *)
Definition normalized_assets (node : ReleaseNode.t) : slice NormalizedAsset.t :=
  Slice ((fun a => normalized_asset a (size_text (AssetNode.Size a)))
           <$> elems (ReleaseAssets.Nodes (ReleaseNode.ReleaseAssets node))).

(** Inputs as the decoder of the response can produce them: every asset
    size is a 64-bit integer. *)
Definition wf_asset (asset : AssetNode.t) : Prop := int64_range (AssetNode.Size asset).

Definition wf_release (node : ReleaseNode.t) : Prop :=
  Forall wf_asset (elems (ReleaseAssets.Nodes (ReleaseNode.ReleaseAssets node))).

Definition wf_releases (nodes : slice ReleaseNode.t) : Prop :=
  Forall wf_release (elems nodes).

(** A computation that changes nothing when it returns normally. *)
Definition silent_on_ok {A} (m : M A) : Prop :=
  forall st st' a, m st = (st', Ok a) -> st' = st.

(** A computation that never touches the files. *)
Definition keeps_files {A} (m : M A) : Prop :=
  forall st st' o, m st = (st', o) -> files st' = files st.

(** The same surroundings with another command line. *)
Definition with_args (env : Env) (args : list string) : Env :=
  mkEnv args (os_Environ env) (http_Do env) (json_Decode env) (time_Now env)
    (filepath_Abs env) (json_MarshalIndent env) (strconv_Quote env) (os_WriteFile env).

(** An argument at which [flag] stops parsing: shorter than two bytes, or
    not starting with a dash. *)
Definition is_positional (s : string) : bool :=
  (Z.of_nat (String.length s) <? 2) || negb (Flag.starts_with 45 s).

(** The configuration of a run without arguments. *)
Definition default_config (env : Env) : Config.t :=
  {| Config.Owner := "Typeflu"; Config.Repo := "gale"; Config.Count := 10;
     Config.Output := "releases.json"; Config.Token := Getenv env "GITHUB_TOKEN";
     Config.Quiet := false; Config.Help := false; Config.Version := false |}.

(** Surroundings for examples: no variable set, a remote that answers 404,
    a file system that stores what is written. *)
Definition sample_env (args : list string) : Env :=
  mkEnv args [] (fun _ _ _ _ => Response 404 "Not Found" None)
    (fun _ => inl "unexpected end of JSON input") "2025-01-01T00:00:00Z"
    (fun p => inr ("/work/" +:+ p)) (fun _ => inr "{}") (fun s => s)
    (fun fs path data => (<[path := data]> fs, None)).

Definition sample_proc : proc := mkProc [] ∅.

(** What a run prints and sends from the resolution of its arguments to the
    end of the fetch, for a response whose body closes with [close_err]. *)
Definition fetch_events (cfg : Config.t) (close_err : option string) : list event :=
  (if Config.Quiet cfg then [] else [PrintBanner])
  ++ (if String.eqb (Config.Token cfg) "" then [WarnNoToken] else [])
  ++ (if Config.Quiet cfg then []
      else [SpinnerStart (Config.Count cfg) (Config.Owner cfg) (Config.Repo cfg)])
  ++ [HttpPost (Config.Owner cfg) (Config.Repo cfg) (Config.Count cfg) (Config.Token cfg)]
  ++ (match close_err with Some err => [WarnClose err] | None => [] end)
  ++ [SpinnerStop].

(** The lines of an error list: one per error, in order. *)
Definition error_lines (errors : list GraphQLError.t) : string :=
  fold_right (fun e rest => "- " +:+ GraphQLError.Message e +:+ nl +:+ rest) "" errors.

(** The process state after emitting [evs], the files untouched. *)
Definition after (st : proc) (evs : list event) : proc :=
  mkProc (trace st ++ evs) (files st).

(** Surroundings in which the remote answers 200 with two query errors. *)
Definition query_errors : slice GraphQLError.t :=
  Slice [GraphQLError.mk "Could not resolve to a Repository"; GraphQLError.mk "rate limited"].

Definition errors_env (args : list string) : Env :=
  mkEnv args [] (fun _ _ _ _ => Response 200 "{}" None)
    (fun _ => inr (GraphQLResponse.mk None query_errors)) "2025-01-01T00:00:00Z"
    (fun p => inr ("/work/" +:+ p)) (fun _ => inr "{}") (fun s => s)
    (fun fs path data => (<[path := data]> fs, None)).

(** The input of the repository's test of [normalizeData]: a release with
    one asset and a release without a name and without assets; and a
    release whose reported asset total exceeds the assets returned. *)
Definition test_asset : AssetNode.t := AssetNode.mk "asset1" "asset1.zip" 1024 "" "".

Definition test_nodes : slice ReleaseNode.t :=
  Slice [ ReleaseNode.mk "1" "Release" "v4.4.0" 1735689600 false false "" ""
            (ReleaseAssets.mk 0 (Slice [test_asset]));
          ReleaseNode.mk "2" "" "v4.4.1" zero_time false false "" ""
            (ReleaseAssets.mk 0 nil_slice) ].

Definition unnamed_node : ReleaseNode.t :=
  ReleaseNode.mk "3" "" "" zero_time false false "" "" (ReleaseAssets.mk 0 nil_slice).

Definition truncated_node : ReleaseNode.t :=
  ReleaseNode.mk "4" "Big" "v1" zero_time false false "" ""
    (ReleaseAssets.mk 120 (Slice [test_asset])).

(** The flags that [parseArgs] defines, by name. *)
Definition gale_formal : gmap string (Flag.Value Config.t) :=
  list_to_map
    [ ("count", Flag.intValue set_Count); ("c", Flag.intValue set_Count);
      ("output", Flag.stringValue set_Output); ("o", Flag.stringValue set_Output);
      ("token", Flag.stringValue set_Token); ("t", Flag.stringValue set_Token);
      ("quiet", Flag.boolValue set_Quiet); ("q", Flag.boolValue set_Quiet);
      ("help", Flag.boolValue set_Help); ("h", Flag.boolValue set_Help);
      ("version", Flag.boolValue set_Version); ("v", Flag.boolValue set_Version) ].

(** The variables of the flags once all are defined. *)
Definition flag_defaults (token : string) : Config.t :=
  Config.mk "" "" 10 "releases.json" token false false false.

(** Owner and repo from the arguments that the flags leave. *)
Definition positionals (args : list string) (cfg : Config.t) : Config.t :=
  let cfg := set_Owner "Typeflu" cfg in
  let cfg := set_Repo "gale" cfg in
  let cfg := match args with a0 :: _ => set_Owner a0 cfg | [] => cfg end in
  match args with _ :: a1 :: _ => set_Repo a1 cfg | _ => cfg end.

(** The flag set of [parseArgs] in front of the arguments [args]. *)
Definition gale_flags (args : list string) (cfg : Config.t) : Flag.FlagSet Config.t :=
  Flag.mkFlagSet gale_formal args cfg.

(** [parseArgs] from a flag set on: parse what is left, then assign the
    positionals. *)
Definition resolve_from (f : Flag.FlagSet Config.t) : M Config.t :=
  let! f := Flag.parse_loop (length (Flag.args f)) showHelp f in
  ret (positionals (Flag.args f) (Flag.vars f)).

(** No byte of [s] is an equals sign. *)
Fixpoint no_equals (s : string) : bool :=
  match s with
  | EmptyString => true
  | String c s' => negb (Strconv.byte_val c =? 61) && no_equals s'
  end.

(** A flag name as it can follow the dashes: not empty, not starting with
    a dash, without an equals sign. *)
Definition plain_name (name : string) : bool :=
  match name with
  | EmptyString => false
  | String c _ => negb (Strconv.byte_val c =? 45) && no_equals name
  end.

(** The names that [parseArgs] defines. *)
Definition gale_flag_names : list string :=
  ["count"; "c"; "output"; "o"; "token"; "t"; "quiet"; "q"; "help"; "h"; "version"; "v"].

(** The releases that [normalizeData] returns for well-formed nodes. *)
Definition normalized (nodes : slice ReleaseNode.t) : slice NormalizedRelease.t :=
  Slice ((fun n => normalized_release n (normalized_assets n)) <$> elems nodes).

(** The document that [run] assembles for the repository data [repo]. *)
Definition output_document (env : Env) (cfg : Config.t) (repo : Repository.t) : OutputFile.t :=
  let releases := normalized (Releases.Nodes (Repository.Releases repo)) in
  {| OutputFile.Metadata := {|
       Metadata.FetchedAt := time_Now env;
       Metadata.FetchedBy := "gale v4.5.0";
       Metadata.Author := "Saksham Singla (@Typeflu)";
       Metadata.URL := "https://github.com/Typeflu" |};
     OutputFile.Repository := {|
       RepoInfo.Owner := Config.Owner cfg;
       RepoInfo.Repo := Config.Repo cfg;
       RepoInfo.URL := "https://github.com/" +:+ Config.Owner cfg +:+ "/" +:+ Config.Repo cfg;
       RepoInfo.TotalReleases := Releases.TotalCount (Repository.Releases repo);
       RepoInfo.FetchedReleases :=
         Z.of_nat (length (elems (Releases.Nodes (Repository.Releases repo)))) |};
     OutputFile.Releases := releases |}.

(** What [run] prints about the releases it found, unless quiet. *)
Definition info_events (cfg : Config.t) (repo : Repository.t) : list event :=
  if Config.Quiet cfg then []
  else
    InfoFound (Z.of_nat (length (elems (Releases.Nodes (Repository.Releases repo)))))
      (Releases.TotalCount (Repository.Releases repo))
    :: match elems (Releases.Nodes (Repository.Releases repo)) with
       | latest :: _ => [InfoLatest (ReleaseNode.TagName latest) (ReleaseNode.PublishedAt latest)]
       | [] => []
       end.

(** What [run] prints after the file is written. *)
Definition success_events (cfg : Config.t) (repo : Repository.t) (outPath : string)
    : list event :=
  PrintSuccess (Z.of_nat (length (elems (Releases.Nodes (Repository.Releases repo)))))
    (Config.Output cfg)
  :: (if Config.Quiet cfg then [] else [PrintPath outPath]).

(** The data of a response carries a repository. *)
Definition repository_of (result : GraphQLResponse.t) : option Repository.t :=
  GraphQLResponse.Data result ≫= GraphQLData.Repository.

(** The run reaches the data of the repository [repo]: the arguments
    resolve to [cfg] without help or version, the remote answers below 400
    with a body that closes with [close_err] and decodes to a response
    without errors that carries [repo], whose asset sizes are 64-bit
    integers. *)
Definition delivers (env : Env) (st : proc) (cfg : Config.t) (close_err : option string)
    (repo : Repository.t) : Prop :=
  parseArgs env st = (st, Ok cfg) /\
  Config.Help cfg = false /\ Config.Version cfg = false /\
  exists status body result,
    http_Do env (Config.Owner cfg) (Config.Repo cfg) (Config.Count cfg) (Config.Token cfg)
    = Response status body close_err /\
    status < 400 /\
    json_Decode env body = inr result /\
    len (GraphQLResponse.Errors result) = 0%nat /\
    repository_of result = Some repo /\
    wf_releases (Releases.Nodes (Repository.Releases repo)).

(** The decoder only yields asset sizes that are 64-bit integers. *)
Definition decodes_int64 (env : Env) : Prop :=
  forall body result repo,
    json_Decode env body = inr result -> repository_of result = Some repo ->
    wf_releases (Releases.Nodes (Repository.Releases repo)).

Definition is_post (e : event) : bool :=
  match e with
  | HttpPost _ _ _ _ => true
  | _ => false
  end.

(** Surroundings in which the remote delivers the releases of the test,
    with the three library calls of the output as parameters. *)
Definition test_repository : Repository.t :=
  Repository.mk (Releases.mk 7 test_nodes).

Definition delivering_env (args : list string)
    (abs : string -> result string) (marshal : OutputFile.t -> result string)
    (write : gmap string string -> string -> string -> gmap string string * option string)
    : Env :=
  mkEnv args [("GITHUB_TOKEN", "secret")] (fun _ _ _ _ => Response 200 "{}" None)
    (fun _ => inr (GraphQLResponse.mk (Some (GraphQLData.mk (Some test_repository)))
                     nil_slice))
    "2025-01-01T00:00:00Z" abs marshal (fun s => s) write.

Definition ok_abs (p : string) : result string := inr ("/work/" +:+ p).
Definition ok_marshal (doc : OutputFile.t) : result string := inr "{}".
Definition ok_write (fs : gmap string string) (path data : string)
    : gmap string string * option string := (<[path := data]> fs, None).

(** The events of [evs] that are requests to the remote. *)
Definition posts (evs : list event) : list event := List.filter is_post evs.

(** The files after a run are those before it, or those left by one call
    of [os.WriteFile] on the resolved output path with an encoded
    document. *)
Definition wrote_at_most_output (env : Env) (cfg : Config.t) (fs fs' : gmap string string)
    : Prop :=
  fs' = fs \/
  exists outPath doc file,
    filepath_Abs env (Config.Output cfg) = inr outPath /\
    json_MarshalIndent env doc = inr file /\
    fs' = fst (os_WriteFile env fs outPath file).

(** What a run prints before it sends the request. *)
Definition before_request (cfg : Config.t) : list event :=
  (if Config.Quiet cfg then [] else [PrintBanner])
  ++ (if String.eqb (Config.Token cfg) "" then [WarnNoToken] else [])
  ++ (if Config.Quiet cfg then []
      else [SpinnerStart (Config.Count cfg) (Config.Owner cfg) (Config.Repo cfg)]).

(** The request of a run. *)
Definition request_of (cfg : Config.t) : event :=
  HttpPost (Config.Owner cfg) (Config.Repo cfg) (Config.Count cfg) (Config.Token cfg).

(** Surroundings whose remote and decoder are parameters. *)
Definition remote_env (args : list string) (answer : http_outcome)
    (decode : string -> result GraphQLResponse.t) : Env :=
  mkEnv args [] (fun _ _ _ _ => answer) decode "2025-01-01T00:00:00Z"
    ok_abs ok_marshal (fun s => s) ok_write.

(** The variable [key] is set to [v] in the environment [environ]: the
    first entry for [key] carries [v]. *)
Definition env_set (environ : list (string * string)) (key v : string) : Prop :=
  exists before later,
    environ = (before ++ (key, v) :: later)%list /\
    forall kv, In kv before -> fst kv <> key.

(** The variable [key] is not set in [environ]. *)
Definition env_unset (environ : list (string * string)) (key : string) : Prop :=
  forall kv, In kv environ -> fst kv <> key.

(** [token] is the value of GITHUB_TOKEN in the environment of [env], the
    empty string when the variable is not set. *)
Definition environment_token (env : Env) (token : string) : Prop :=
  env_set (os_Environ env) "GITHUB_TOKEN" token \/
  (env_unset (os_Environ env) "GITHUB_TOKEN" /\ token = "").

(** Surroundings in which GITHUB_TOKEN is set. *)
Definition token_env (args : list string) : Env :=
  mkEnv args [("HOME", "/root"); ("GITHUB_TOKEN", "ghp_secret")]
    (fun _ _ _ _ => Response 404 "Not Found" None)
    (fun _ => inl "unexpected end of JSON input") "2025-01-01T00:00:00Z"
    (fun p => inr ("/work/" +:+ p)) (fun _ => inr "{}") (fun s => s)
    (fun fs path data => (<[path := data]> fs, None)).

(** The documented switches, and the documented flags that take a value. *)
Definition is_switch (a : string) : bool :=
  existsb (String.eqb a) ["-q"; "--quiet"; "-h"; "--help"; "-v"; "--version"].

Definition is_text_flag (a : string) : bool :=
  existsb (String.eqb a) ["-o"; "--output"; "-t"; "--token"].

Definition is_count_flag (a : string) : bool :=
  existsb (String.eqb a) ["-c"; "--count"].

Definition is_int_literal (v : string) : bool :=
  match Strconv.ParseInt v with
  | inr _ => true
  | inl _ => false
  end.

(** The arguments are documented flags only: switches, text flags each
    followed by a value, and count flags each followed by an integer
    literal. *)
Fixpoint flags_only (args : list string) : bool :=
  match args with
  | [] => true
  | a :: rest =>
      if is_switch a then flags_only rest
      else
        match rest with
        | v :: rest' =>
            (is_text_flag a || (is_count_flag a && is_int_literal v)) && flags_only rest'
        | [] => false
        end
  end.

(** The warning of [fetchGraphQL] for the answer of the remote: one when
    the body of a response fails to close, none otherwise. *)
Definition close_warning (answer : http_outcome) : list event :=
  match answer with
  | Response _ _ (Some msg) => [WarnClose msg]
  | _ => []
  end.

(** * Properties *)

(** ** Machine integers *)

Lemma wrap64_id z : int64_range z -> wrap64 z = z.
Proof.
  unfold int64_range, min_int, max_int, wrap64. intros H.
  rewrite Z.mod_small; lia.
Qed.

Lemma wrap64_range z : int64_range (wrap64 z).
Proof.
  unfold int64_range, min_int, max_int, wrap64.
  pose proof (Z.mod_pos_bound (z + 2 ^ 63) (2 ^ 64)); lia.
Qed.

(** ** formatBytes *)

Section FormatBytes.

Lemma pow1024_pos k : 0 <= k -> 0 < 1024 ^ k.
Proof. intros. apply Z.pow_pos_nonneg; lia. Qed.

(** A power of 1024 below [2^63] has an exponent of at most 6. *)
Lemma pow1024_le_max k : 0 <= k -> 1024 ^ k <= max_int -> k <= 6.
Proof.
  intros Hk H. destruct (Z_le_gt_dec k 6) as [|Hgt]; [assumption|].
  assert (1024 ^ 7 <= 1024 ^ k) by (apply Z.pow_le_mono_r; lia).
  unfold max_int in H. change (1024 ^ 7) with 1180591620717411303424 in *.
  change (2 ^ 63) with 9223372036854775808 in *. lia.
Qed.

Lemma loop_inv_div_le b n div exp :
  0 <= b -> loop_inv b n div exp -> 0 < div /\ div * n <= b.
Proof.
  intros Hb (Hexp & -> & -> & _).
  assert (0 < 1024 ^ (exp + 1)) by (apply pow1024_pos; lia).
  split; [assumption|]. apply Z.mul_div_le; assumption.
Qed.

Lemma loop_inv_step b n div exp :
  0 <= b <= max_int -> loop_inv b n div exp -> 1024 <= n ->
  wrap64 (div * unit) = div * 1024 /\ wrap64 (exp + 1) = exp + 1 /\
  loop_inv b (n ÷ unit) (div * 1024) (exp + 1).
Proof.
  intros Hb Hinv Hn.
  destruct (loop_inv_div_le b n div exp (proj1 Hb) Hinv) as [Hdiv Hle].
  destruct Hinv as (Hexp & Hd & Hq & Hk).
  assert (Hdn : div * 1024 <= max_int) by nia.
  assert (He : exp + 1 <= 6).
  { apply pow1024_le_max; [lia|]. rewrite <- Hd. lia. }
  unfold unit. repeat split.
  - apply wrap64_id. unfold int64_range, min_int. lia.
  - apply wrap64_id. unfold int64_range, min_int, max_int. lia.
  - lia.
  - rewrite Hd. replace (exp + 1 + 1) with (Z.succ (exp + 1)) by lia.
    rewrite Z.pow_succ_r by lia. lia.
  - rewrite Z.quot_div_nonneg by lia. rewrite Hq.
    rewrite Z.div_div by lia. reflexivity.
  - intros k Hkr. destruct (Z.eq_dec k (exp + 1)) as [->|Hne].
    + rewrite <- Hd, <- Hq. assumption.
    + apply Hk. lia.
Qed.

(** With enough iterations allowed, the loop ends after [d - 1] of them,
    where [d] is the least number of divisions by 1024 that brings [b]
    below 1024. *)
Lemma unit_loop_spec fuel : forall b n div exp,
  0 <= b <= max_int -> loop_inv b n div exp ->
  n < 1024 ^ (Z.of_nat fuel + 1) ->
  exists d, exp + 1 <= d <= 6 /\
    unit_loop fuel n div exp = Some (1024 ^ d, d - 1) /\
    b / 1024 ^ d < 1024 /\
    forall k, 0 <= k < d -> 1024 <= b / 1024 ^ k.
Proof.
  induction fuel as [|fuel IH]; intros b n div exp Hb Hinv Hfuel.
  - exists (exp + 1). destruct Hinv as (Hexp & Hd & Hq & Hk).
    assert (Hlt : n < 1024) by (simpl in Hfuel; lia).
    assert (exp + 1 <= 6).
    { apply pow1024_le_max; [lia|]. rewrite <- Hd.
      assert (0 < 1024 ^ (exp + 1)) by (apply pow1024_pos; lia).
      assert (1024 <= b / 1024 ^ exp) by (apply Hk; lia).
      assert (0 < 1024 ^ exp) by (apply pow1024_pos; lia).
      assert (1024 ^ exp * (b / 1024 ^ exp) <= b) by (apply Z.mul_div_le; lia).
      rewrite Hd. rewrite Z.pow_add_r by lia. change (1024 ^ 1) with 1024. nia. }
    repeat split; try lia.
    + simpl. unfold unit. destruct (n >=? 1024) eqn:E; [lia|].
      rewrite Hd. do 2 f_equal. lia.
    + rewrite <- Hd, <- Hq. assumption.
    + intros k Hkr. apply Hk. lia.
  - destruct (Z_lt_ge_dec n 1024) as [Hlt|Hge].
    + exists (exp + 1). destruct Hinv as (Hexp & Hd & Hq & Hk).
      assert (exp + 1 <= 6).
      { apply pow1024_le_max; [lia|]. rewrite <- Hd.
        assert (1024 <= b / 1024 ^ exp) by (apply Hk; lia).
        assert (0 < 1024 ^ exp) by (apply pow1024_pos; lia).
        assert (1024 ^ exp * (b / 1024 ^ exp) <= b) by (apply Z.mul_div_le; lia).
        rewrite Hd. rewrite Z.pow_add_r by lia. change (1024 ^ 1) with 1024. nia. }
      repeat split; try lia.
      * simpl. unfold unit. destruct (n >=? 1024) eqn:E; [lia|].
        rewrite Hd. do 2 f_equal. lia.
      * rewrite <- Hd, <- Hq. assumption.
      * intros k Hkr. apply Hk. lia.
    + destruct (loop_inv_step b n div exp Hb Hinv) as (Hw1 & Hw2 & Hinv'); [lia|].
      destruct (IH b (n ÷ unit) (div * 1024) (exp + 1) Hb Hinv') as (d & Hd & Hrun & Hlast & Hall).
      { unfold unit. rewrite Z.quot_div_nonneg by lia.
        apply Z.div_lt_upper_bound; [lia|].
        replace (Z.of_nat (S fuel) + 1) with (Z.succ (Z.of_nat fuel + 1)) in Hfuel by lia.
        rewrite Z.pow_succ_r in Hfuel by lia. lia. }
      exists d. repeat split; try lia; try assumption.
      simpl. fold unit. destruct (n >=? unit) eqn:E; [|unfold unit in E; lia].
      rewrite Hw1, Hw2. assumption.
Qed.

Lemma loop_inv_init b : 1024 <= b -> loop_inv b (b ÷ unit) unit 0.
Proof.
  intros Hb. unfold loop_inv, unit. repeat split.
  - lia.
  - rewrite Z.quot_div_nonneg by lia. reflexivity.
  - intros k Hk. assert (k = 0) as -> by lia. rewrite Z.div_1_r. assumption.
Qed.

(** The loop of [formatBytes] on an input of at least 1024, for any bound
    of at least five iterations. *)
Lemma unit_loop_formatBytes b fuel :
  1024 <= b <= max_int -> (5 <= fuel)%nat ->
  exists d, 1 <= d <= 6 /\
    unit_loop fuel (b ÷ unit) unit 0 = Some (1024 ^ d, d - 1) /\
    b / 1024 ^ d < 1024 /\
    forall k, 0 <= k < d -> 1024 <= b / 1024 ^ k.
Proof.
  intros Hb Hfuel.
  destruct (unit_loop_spec fuel b (b ÷ unit) unit 0) as (d & Hd & H); try lia.
  - apply loop_inv_init. lia.
  - unfold unit. rewrite Z.quot_div_nonneg by lia.
    apply Z.div_lt_upper_bound; [lia|].
    assert (1024 ^ 6 <= 1024 ^ (Z.of_nat fuel + 1)) by (apply Z.pow_le_mono_r; lia).
    unfold max_int in Hb. change (2 ^ 63) with 9223372036854775808 in Hb.
    change (1024 ^ 6) with 1152921504606846976 in H. lia.
  - exists d. split; [lia | assumption].
Qed.

Lemma string_index_units e :
  0 <= e <= 5 ->
  exists c, string_index "KMGTPE" e = Ok c /\
            unit_letters !! Z.to_nat e = Some c.
Proof.
  intros He.
  assert (e = 0 \/ e = 1 \/ e = 2 \/ e = 3 \/ e = 4 \/ e = 5) as H by lia.
  destruct H as [->|[->|[->|[->|[->| ->]]]]]; eexists; split; reflexivity.
Qed.

End FormatBytes.

(** *** Sanity checks on the table of the repository's test *)

Example formatBytes_0 : formatBytes 0 = Ok "0 B".
Proof. reflexivity. Qed.
Example formatBytes_500 : formatBytes 500 = Ok "500 B".
Proof. reflexivity. Qed.
Example formatBytes_1024 : formatBytes 1024 = Ok "1.0 KB".
Proof. vm_compute. reflexivity. Qed.
Example formatBytes_1572864 : formatBytes 1572864 = Ok "1.5 MB".
Proof. vm_compute. reflexivity. Qed.
Example formatBytes_max : formatBytes max_int = Ok "8.0 EB".
Proof. vm_compute. reflexivity. Qed.
Example formatBytes_round_up : formatBytes 1048575 = Ok "1024.0 KB".
Proof. vm_compute. reflexivity. Qed.
Example formatBytes_negative : formatBytes (-5) = Ok "-5 B".
Proof. vm_compute. reflexivity. Qed.

(** [formatBytes] returns a text on every 64-bit input. *)
Lemma formatBytes_total b : int64_range b -> exists s, formatBytes b = Ok s.
Proof.
  intros [Hlo Hhi]. unfold formatBytes.
  destruct (b =? 0) eqn:E0; [eauto|].
  destruct (b <? unit) eqn:E1; [eauto|].
  apply Z.ltb_ge in E1. unfold unit in E1.
  destruct (unit_loop_formatBytes b loop_bound) as (d & Hd & Hrun & _);
    [lia | unfold loop_bound; lia |].
  rewrite Hrun.
  destruct (string_index_units (d - 1)) as (c & Hc & _); [lia|].
  rewrite Hc. simpl. eauto.
Qed.

Lemma formatBytes_size_text b : int64_range b -> formatBytes b = Ok (size_text b).
Proof.
  intros H. destruct (formatBytes_total b H) as [s Hs].
  unfold size_text. rewrite Hs. reflexivity.
Qed.

(** C9: on every non-negative 64-bit input of at least 1024 the loop of
    [formatBytes] ends, under any iteration bound of at least five, after
    [d - 1] iterations with [d <= 6] divisions in all, so that the index
    [d - 1] into "KMGTPE" is at most 5 and the indexing yields a letter;
    and [formatBytes] returns a text, without a panic, on every 64-bit
    input. *)
Theorem formatBytes_index_in_bounds (b : Z) :
  int64_range b ->
  (exists s, formatBytes b = Ok s) /\
  (1024 <= b ->
   exists divisions c,
     1 <= divisions <= 6 /\
     (forall fuel, (5 <= fuel)%nat ->
        unit_loop fuel (b ÷ unit) unit 0 = Some (1024 ^ divisions, divisions - 1)) /\
     0 <= divisions - 1 <= 5 /\
     string_index "KMGTPE" (divisions - 1) = Ok c).
Proof.
  intros Hb. split; [apply formatBytes_total; assumption|].
  intros Hge. destruct Hb as [_ Hhi].
  destruct (unit_loop_formatBytes b 5) as (d & Hd & Hrun & Hlast & Hall); [lia | lia |].
  destruct (string_index_units (d - 1)) as (c & Hc & _); [lia|].
  exists d, c. repeat split; try lia; try assumption.
  intros fuel Hfuel.
  destruct (unit_loop_formatBytes b fuel) as (d' & Hd' & Hrun' & Hlast' & Hall'); [lia | lia |].
  assert (d' = d) as ->; [|assumption].
  destruct (Z.lt_trichotomy d' d) as [Hlt|[Heq|Hgt]]; [|assumption|].
  - specialize (Hall d'). lia.
  - specialize (Hall' d). lia.
Qed.

Lemma formatBytes_index_in_bounds_witness :
  int64_range 1610612736 /\
  exists divisions c,
    1 <= divisions <= 6 /\
    unit_loop 5 (1610612736 ÷ unit) unit 0 = Some (1024 ^ divisions, divisions - 1) /\
    string_index "KMGTPE" (divisions - 1) = Ok c.
Proof.
  assert (H : int64_range 1610612736) by (unfold int64_range, min_int, max_int; lia).
  split; [exact H|].
  destruct (proj2 (formatBytes_index_in_bounds 1610612736 H))
    as (d & c & Hd & Hloop & _ & Hc); [lia|].
  exists d, c. repeat split; try lia; [apply Hloop; lia | assumption].
Defined.

(** ** Loops that fill a slice made for them *)

Section RangeStore.

Context {A B : Type}.
Variable f : A -> outcome B.
Variable g : A -> B.
Variable zero : B.
Variable body : nat -> A -> slice B -> outcome (slice B).
Hypothesis body_stores : forall i x s, body i x s = obind (f x) (store s i).

(** Storing at the first index not yet written replaces one zero value. *)
Lemma store_next (pre : list B) (rest : list B) (v : B) :
  store (Slice (pre ++ zero :: rest)) (length pre) v = Ok (Slice (pre ++ v :: rest)).
Proof.
  unfold store, len. simpl. rewrite length_app. simpl.
  destruct (decide (length pre < length pre + S (length rest))%nat) as [_|Hn]; [|lia].
  rewrite insert_app_r_alt by lia. rewrite Nat.sub_diag. reflexivity.
Qed.

Lemma range_from_store (l : list A) : forall pre : list B,
  Forall (fun x => f x = Ok (g x)) l ->
  range_from (length pre) l body (Slice (pre ++ replicate (length l) zero))
  = Ok (Slice (pre ++ (g <$> l))).
Proof.
  induction l as [|x l IH]; intros pre HF.
  - simpl. rewrite !app_nil_r. reflexivity.
  - inversion HF as [|? ? Hx HF']; subst. simpl.
    rewrite body_stores, Hx. simpl. rewrite store_next. simpl.
    specialize (IH (pre ++ [g x])%list HF').
    rewrite length_app in IH. simpl in IH. rewrite Nat.add_1_r in IH.
    rewrite <- !app_assoc in IH. simpl in IH. exact IH.
Qed.

(** A loop over a slice that stores one result per element into a slice
    made with the length of the input yields the results in input order. *)
Lemma range_store (s : slice A) :
  Forall (fun x => f x = Ok (g x)) (elems s) ->
  range s body (make zero (len s)) = Ok (Slice (g <$> elems s)).
Proof.
  intros HF. unfold range, make, len.
  exact (range_from_store (elems s) [] HF).
Qed.

End RangeStore.

(** ** normalizeData *)

Lemma normalize_assets_ok (nodes : slice AssetNode.t) :
  Forall wf_asset (elems nodes) ->
  normalize_assets nodes
  = Ok (Slice ((fun a => normalized_asset a (size_text (AssetNode.Size a))) <$> elems nodes)).
Proof.
  intros Hwf. unfold normalize_assets.
  apply (range_store
           (fun a => obind (formatBytes (AssetNode.Size a))
                       (fun s => Ok (normalized_asset a s)))).
  - intros i x s. destruct (formatBytes (AssetNode.Size x)); reflexivity.
  - eapply Forall_impl; [exact Hwf|]. intros a Ha. simpl.
    rewrite (formatBytes_size_text _ Ha). reflexivity.
Qed.

(** On well-formed input [normalizeData] returns a non-nil slice with one
    release per node, in the order of the nodes. *)
Lemma normalizeData_ok (nodes : slice ReleaseNode.t) :
  wf_releases nodes ->
  normalizeData nodes
  = Ok (Slice ((fun n => normalized_release n (normalized_assets n)) <$> elems nodes)).
Proof.
  intros Hwf. unfold normalizeData.
  apply (range_store
           (fun n => obind (normalize_assets (ReleaseAssets.Nodes (ReleaseNode.ReleaseAssets n)))
                       (fun assets => Ok (normalized_release n assets)))).
  - intros i x s.
    destruct (normalize_assets (ReleaseAssets.Nodes (ReleaseNode.ReleaseAssets x))); reflexivity.
  - eapply Forall_impl; [exact Hwf|]. intros n Hn. simpl.
    rewrite (normalize_assets_ok _ Hn). reflexivity.
Qed.

Lemma normalizeData_lookup (nodes : slice ReleaseNode.t) (i : nat) (node : ReleaseNode.t) :
  wf_releases nodes -> elems nodes !! i = Some node ->
  exists out, normalizeData nodes = Ok (Slice out) /\
              length out = len nodes /\
              out !! i = Some (normalized_release node (normalized_assets node)).
Proof.
  intros Hwf Hi. eexists. split; [apply normalizeData_ok; assumption|]. split.
  - rewrite length_fmap. reflexivity.
  - rewrite list_lookup_fmap, Hi. reflexivity.
Qed.

Lemma wf_test_nodes : wf_releases test_nodes.
Proof.
  repeat constructor; unfold wf_asset, int64_range, min_int, max_int; simpl; lia.
Qed.

Lemma wf_single (node : ReleaseNode.t) : wf_release node -> wf_releases (Slice [node]).
Proof. intros H. repeat constructor. assumption. Qed.

Lemma wf_truncated_node : wf_release truncated_node.
Proof.
  repeat constructor; unfold wf_asset, int64_range, min_int, max_int; simpl; lia.
Qed.

Lemma release_name_nonempty (node : ReleaseNode.t) : release_name node <> "".
Proof.
  unfold release_name.
  destruct (String.eqb_spec (ReleaseNode.Name node) "") as [E1|E1].
  - destruct (String.eqb_spec (ReleaseNode.TagName node) "") as [E2|E2];
      [discriminate | assumption].
  - destruct (String.eqb_spec (ReleaseNode.Name node) "") as [E2|E2];
      [contradiction | assumption].
Qed.

Lemma release_name_chain (node : ReleaseNode.t) :
  release_name node =
    if decide (ReleaseNode.Name node <> "") then ReleaseNode.Name node
    else if decide (ReleaseNode.TagName node <> "") then ReleaseNode.TagName node
    else "Unnamed Release".
Proof.
  unfold release_name.
  destruct (String.eqb_spec (ReleaseNode.Name node) "") as [E1|E1].
  - destruct (decide (ReleaseNode.Name node <> "")) as [N|_]; [contradiction|].
    destruct (String.eqb_spec (ReleaseNode.TagName node) "") as [E2|E2].
    + destruct (decide (ReleaseNode.TagName node <> "")) as [N|_]; [contradiction|reflexivity].
    + destruct (decide (ReleaseNode.TagName node <> "")) as [_|N]; [reflexivity|contradiction].
  - destruct (decide (ReleaseNode.Name node <> "")) as [_|N]; [|contradiction].
    destruct (String.eqb_spec (ReleaseNode.Name node) "") as [E2|E2];
      [contradiction | reflexivity].
Qed.

(** C1: on every sequence of release nodes (asset sizes being 64-bit
    integers) [normalizeData] returns a non-nil slice of the same length
    whose i-th release is built from the i-th node, none being left out,
    and the assets of every release are a non-nil slice with one entry per
    asset of the node, empty when the node has none. *)
Theorem normalizeData_length_order_assets (nodes : slice ReleaseNode.t) :
  wf_releases nodes ->
  exists out,
    normalizeData nodes = Ok (Slice out) /\
    length out = len nodes /\
    forall i node, elems nodes !! i = Some node ->
      exists r assets,
        out !! i = Some r /\
        r = normalized_release node (Slice assets) /\
        NormalizedRelease.Assets r = Slice assets /\
        length assets = len (ReleaseAssets.Nodes (ReleaseNode.ReleaseAssets node)).
Proof.
  intros Hwf. eexists. split; [apply normalizeData_ok; assumption|]. split.
  - rewrite length_fmap. reflexivity.
  - intros i node Hi. eexists. eexists. split.
    + rewrite list_lookup_fmap, Hi. reflexivity.
    + unfold normalized_assets. repeat split. rewrite length_fmap. reflexivity.
Qed.

Lemma normalizeData_length_order_assets_witness :
  wf_releases test_nodes /\
  exists out, normalizeData test_nodes = Ok (Slice out) /\ length out = 2%nat.
Proof.
  split; [exact wf_test_nodes|].
  destruct (normalizeData_length_order_assets test_nodes wf_test_nodes)
    as (out & Hrun & Hlen & _).
  exists out. split; assumption.
Defined.

(** The release without assets of the test keeps its place, with an empty,
    non-nil asset slice. *)
Example normalizeData_test_nodes :
  exists r1, normalizeData test_nodes
    = Ok (Slice [r1; NormalizedRelease.mk "2" "v4.4.1" "v4.4.1" zero_time false false "" "" 0
                       (Slice [])])
    /\ NormalizedRelease.Assets r1
       = Slice [NormalizedAsset.mk "asset1" "asset1.zip" 1024 "1.0 KB" "" ""].
Proof. eexists. split; vm_compute; reflexivity. Qed.

Example normalizeData_nil : normalizeData nil_slice = Ok (Slice []).
Proof. reflexivity. Qed.

(** C2: the name of every normalised release is the name of its node when
    that is not empty, else the tag name when that is not empty, else
    "Unnamed Release"; it is never empty. *)
Theorem normalized_name_fallback (nodes : slice ReleaseNode.t) (i : nat) (node : ReleaseNode.t) :
  wf_releases nodes -> elems nodes !! i = Some node ->
  exists out r,
    normalizeData nodes = Ok (Slice out) /\ out !! i = Some r /\
    NormalizedRelease.Name r <> "" /\
    NormalizedRelease.Name r =
      if decide (ReleaseNode.Name node <> "") then ReleaseNode.Name node
      else if decide (ReleaseNode.TagName node <> "") then ReleaseNode.TagName node
      else "Unnamed Release".
Proof.
  intros Hwf Hi.
  destruct (normalizeData_lookup nodes i node Hwf Hi) as (out & Hrun & _ & Hout).
  exists out, (normalized_release node (normalized_assets node)).
  repeat split; try assumption; simpl.
  - apply release_name_nonempty.
  - apply release_name_chain.
Qed.

Lemma normalized_name_fallback_witness :
  wf_releases test_nodes /\
  exists out r, normalizeData test_nodes = Ok (Slice out) /\ out !! 1%nat = Some r /\
                NormalizedRelease.Name r = "v4.4.1".
Proof.
  split; [exact wf_test_nodes|].
  destruct (normalized_name_fallback test_nodes 1 _ wf_test_nodes eq_refl)
    as (out & r & Hrun & Hr & _ & Hname).
  exists out, r. repeat split; assumption.
Defined.

Example normalized_name_unnamed :
  exists r, normalizeData (Slice [unnamed_node]) = Ok (Slice [r])
            /\ NormalizedRelease.Name r = "Unnamed Release".
Proof. eexists. split; reflexivity. Qed.

(** C3: the download count of every normalised release is the total count
    reported for the assets of its node, whatever the number of assets
    returned. *)
Theorem downloadCount_is_reported_total (nodes : slice ReleaseNode.t) (i : nat)
    (node : ReleaseNode.t) :
  wf_releases nodes -> elems nodes !! i = Some node ->
  exists out r,
    normalizeData nodes = Ok (Slice out) /\ out !! i = Some r /\
    NormalizedRelease.DownloadCount r
    = ReleaseAssets.TotalCount (ReleaseNode.ReleaseAssets node).
Proof.
  intros Hwf Hi.
  destruct (normalizeData_lookup nodes i node Hwf Hi) as (out & Hrun & _ & Hout).
  exists out, (normalized_release node (normalized_assets node)).
  repeat split; assumption.
Qed.

Lemma downloadCount_is_reported_total_witness :
  wf_releases (Slice [truncated_node]) /\
  exists out r, normalizeData (Slice [truncated_node]) = Ok (Slice out) /\
                out !! 0%nat = Some r /\
                NormalizedRelease.DownloadCount r = 120 /\
                len (NormalizedRelease.Assets r) = 1%nat.
Proof.
  split; [exact (wf_single _ wf_truncated_node)|].
  destruct (downloadCount_is_reported_total (Slice [truncated_node]) 0 truncated_node
              (wf_single _ wf_truncated_node) eq_refl)
    as (out & r & Hrun & Hr & Hcount).
  exists out, r. repeat split; try assumption.
  rewrite (normalizeData_ok _ (wf_single _ wf_truncated_node)) in Hrun.
  injection Hrun as <-. injection Hr as <-. reflexivity.
Defined.

(** ** Computations of the process *)

Section ProcessMonad.

Lemma bind_ok_inv {A B} (m : M A) (k : A -> M B) st st' b :
  bind m k st = (st', Ok b) ->
  exists st1 a, m st = (st1, Ok a) /\ k a st1 = (st', Ok b).
Proof.
  unfold bind. destruct (m st) as [st1 [a| | |]]; intros H; try discriminate.
  eauto.
Qed.

Lemma silent_ret {A} (a : A) : silent_on_ok (ret a).
Proof. intros st st' a' H. injection H as <- _. reflexivity. Qed.

Lemma silent_lift {A} (o : outcome A) : silent_on_ok (lift o).
Proof. intros st st' a' H. injection H as <- _. reflexivity. Qed.

Lemma silent_exit {A} code : silent_on_ok (@os_Exit A code).
Proof. intros st st' a' H. discriminate. Qed.

Lemma silent_bind {A B} (m : M A) (k : A -> M B) :
  silent_on_ok m -> (forall a, silent_on_ok (k a)) -> silent_on_ok (bind m k).
Proof.
  intros Hm Hk st st' b H.
  destruct (bind_ok_inv _ _ _ _ _ H) as (st1 & a & H1 & H2).
  apply Hm in H1. subst st1. exact (Hk a _ _ _ H2).
Qed.

(** A computation that ends in [os.Exit], whatever precedes it. *)
Lemma silent_bind_exit {A B C} (m1 : M A) (m2 : M B) code :
  silent_on_ok (bind m1 (fun _ => bind m2 (fun _ => @os_Exit C code))).
Proof.
  intros st st' c H.
  destruct (bind_ok_inv _ _ _ _ _ H) as (st1 & a & _ & H2).
  destruct (bind_ok_inv _ _ _ _ _ H2) as (st2 & b & _ & H3).
  discriminate.
Qed.

Lemma keeps_ret {A} (a : A) : keeps_files (ret a).
Proof. intros st st' o H. injection H as <- _. reflexivity. Qed.

Lemma keeps_lift {A} (o : outcome A) : keeps_files (lift o).
Proof. intros st st' o' H. injection H as <- _. reflexivity. Qed.

Lemma keeps_exit {A} code : keeps_files (@os_Exit A code).
Proof. intros st st' o H. injection H as <- _. reflexivity. Qed.

Lemma keeps_emit e : keeps_files (emit e).
Proof. intros st st' o H. injection H as <- _. reflexivity. Qed.

Lemma keeps_bind {A B} (m : M A) (k : A -> M B) :
  keeps_files m -> (forall a, keeps_files (k a)) -> keeps_files (bind m k).
Proof.
  intros Hm Hk st st' o H. unfold bind in H.
  destruct (m st) as [st1 oa] eqn:E. apply Hm in E.
  destruct oa as [a| | |].
  - apply Hk in H. congruence.
  - injection H as <- _. assumption.
  - injection H as <- _. assumption.
  - injection H as <- _. assumption.
Qed.

End ProcessMonad.

(** ** Argument resolution *)

Section ParseArgs.

Lemma parse_loop_silent {St} fuel (usage : M ()%type) : forall f : Flag.FlagSet St,
  silent_on_ok (Flag.parse_loop fuel usage f).
Proof.
  induction fuel as [|fuel IH]; intros f; simpl;
    destruct (Flag.parseOne f) as [f' [| |e]];
    try apply silent_ret; try apply silent_lift; try apply silent_bind_exit.
  apply IH.
Qed.

Lemma parse_loop_keeps_files {St} fuel (usage : M ()%type) :
  keeps_files usage ->
  forall f : Flag.FlagSet St, keeps_files (Flag.parse_loop fuel usage f).
Proof.
  intros Hu. induction fuel as [|fuel IH]; intros f; simpl;
    destruct (Flag.parseOne f) as [f' [| |e]];
    try apply keeps_ret; try apply keeps_lift; try apply IH;
    (apply keeps_bind;
     [destruct e; try apply keeps_emit; apply keeps_ret
     |intros _; apply keeps_bind; [exact Hu | intros _; apply keeps_exit]]).
Qed.

(** [parseArgs] prints only when it rejects the command line, and then it
    exits; it never touches the files. *)
Lemma parseArgs_silent env : silent_on_ok (parseArgs env).
Proof.
  unfold parseArgs.
  repeat (apply silent_bind; [apply silent_lift | intros ?]).
  apply silent_bind; [apply parse_loop_silent | intros ?]. apply silent_ret.
Qed.

Lemma parseArgs_keeps_files env : keeps_files (parseArgs env).
Proof.
  unfold parseArgs.
  repeat (apply keeps_bind; [apply keeps_lift | intros ?]).
  apply keeps_bind; [apply parse_loop_keeps_files; apply keeps_emit | intros ?].
  apply keeps_ret.
Qed.

End ParseArgs.

Lemma Getenv_with_args env args key : Getenv (with_args env args) key = Getenv env key.
Proof. reflexivity. Qed.

Lemma Getenv_unset env key :
  (forall kv, In kv (os_Environ env) -> fst kv <> key) -> Getenv env key = "".
Proof.
  unfold Getenv. intros H.
  induction (os_Environ env) as [|kv l IH]; [reflexivity|]. simpl.
  destruct (String.eqb_spec (fst kv) key) as [E|E].
  - exfalso. apply (H kv); [left; reflexivity | assumption].
  - apply IH. intros kv' Hin. apply H. right. assumption.
Qed.

Lemma Getenv_set env key v : env_set (os_Environ env) key v -> Getenv env key = v.
Proof.
  unfold Getenv. intros (before & later & -> & H).
  induction before as [|kv l IH]; simpl.
  - rewrite String.eqb_refl. reflexivity.
  - destruct (String.eqb_spec (fst kv) key) as [E|E].
    + exfalso. apply (H kv); [left; reflexivity | assumption].
    + apply IH. intros kv' Hin. apply H. right. assumption.
Qed.

Lemma Getenv_environment_token env token :
  environment_token env token -> Getenv env "GITHUB_TOKEN" = token.
Proof.
  intros [Hset|[Hunset ->]]; [apply Getenv_set | apply Getenv_unset]; assumption.
Qed.

(** C5: the token being the value of GITHUB_TOKEN in the environment (the
    value of its first entry, the empty string when the variable is not
    set): without arguments the configuration is owner "Typeflu", repo
    "gale", count 10, output "releases.json", that token, and no switch
    on; with the positionals "microsoft" "vscode" only owner and repo
    differ from that; with [--count 20 -o out.json -q owner repo] the
    count is 20, the output "out.json", quiet is on, owner and repo are
    "owner" and "repo", the token is still that of the environment.  In
    each case nothing is printed. *)
Theorem parseArgs_resolution (env : Env) (st : proc) (token : string) :
  environment_token env token ->
  parseArgs (with_args env []) st
  = (st, Ok {| Config.Owner := "Typeflu"; Config.Repo := "gale"; Config.Count := 10;
               Config.Output := "releases.json"; Config.Token := token;
               Config.Quiet := false; Config.Help := false; Config.Version := false |}) /\
  parseArgs (with_args env ["microsoft"; "vscode"]) st
  = (st, Ok {| Config.Owner := "microsoft"; Config.Repo := "vscode"; Config.Count := 10;
               Config.Output := "releases.json"; Config.Token := token;
               Config.Quiet := false; Config.Help := false; Config.Version := false |}) /\
  parseArgs (with_args env ["--count"; "20"; "-o"; "out.json"; "-q"; "owner"; "repo"]) st
  = (st, Ok {| Config.Owner := "owner"; Config.Repo := "repo"; Config.Count := 20;
               Config.Output := "out.json"; Config.Token := token;
               Config.Quiet := true; Config.Help := false; Config.Version := false |}).
Proof.
  intros Htoken. apply Getenv_environment_token in Htoken. rewrite <- Htoken.
  split; [|split]; vm_compute; reflexivity.
Qed.

Lemma parseArgs_resolution_witness :
  parseArgs (with_args (token_env []) []) sample_proc
  = (sample_proc,
     Ok {| Config.Owner := "Typeflu"; Config.Repo := "gale"; Config.Count := 10;
           Config.Output := "releases.json"; Config.Token := "ghp_secret";
           Config.Quiet := false; Config.Help := false; Config.Version := false |}) /\
  parseArgs (with_args (sample_env []) []) sample_proc
  = (sample_proc,
     Ok {| Config.Owner := "Typeflu"; Config.Repo := "gale"; Config.Count := 10;
           Config.Output := "releases.json"; Config.Token := "";
           Config.Quiet := false; Config.Help := false; Config.Version := false |}).
Proof.
  split.
  - refine (proj1 (parseArgs_resolution (token_env []) sample_proc "ghp_secret" _)).
    left. exists [("HOME", "/root")], []. split; [reflexivity|].
    intros kv [<-|[]]. discriminate.
  - refine (proj1 (parseArgs_resolution (sample_env []) sample_proc "" _)).
    right. split; [intros kv []|reflexivity].
Defined.

Lemma bind_lift_ok {A B} (a : A) (k : A -> M B) st : bind (lift (Ok a)) k st = k a st.
Proof. reflexivity. Qed.

Lemma bind_ok_eq {A B} (m : M A) (k : A -> M B) st st' a :
  m st = (st', Ok a) -> bind m k st = k a st'.
Proof. intros H. unfold bind. rewrite H. reflexivity. Qed.

Lemma parseOne_positional {St} (f : Flag.FlagSet St) a rest :
  Flag.args f = a :: rest -> is_positional a = true -> Flag.parseOne f = (f, Flag.Done).
Proof.
  intros Ha Hp. unfold Flag.parseOne. rewrite Ha.
  unfold is_positional in Hp. rewrite Hp. reflexivity.
Qed.

Lemma Parse_positional {St} usage (f : Flag.FlagSet St) a rest st :
  is_positional a = true ->
  Flag.Parse usage f (a :: rest) st
  = (st, Ok (Flag.mkFlagSet (Flag.formal f) (a :: rest) (Flag.vars f))).
Proof.
  intros Hp. unfold Flag.Parse. simpl length. cbn [Flag.parse_loop].
  rewrite (parseOne_positional _ a rest); [reflexivity | reflexivity | assumption].
Qed.

(** Evaluates the next flag definition of [parseArgs]. *)
Ltac define_flag :=
  match goal with
  | |- context [lift ?o] =>
      let x := fresh "o" in
      set (x := o); vm_compute in x; subst x; rewrite bind_lift_ok
  end.

(** Whatever follows a first positional argument, flags included, is left
    unparsed: only owner and repo differ from the defaults. *)
Lemma parseArgs_positional_first env st a rest :
  is_positional a = true ->
  parseArgs (with_args env (a :: rest)) st
  = (st, Ok (set_Owner a (match rest with
                          | a1 :: _ => set_Repo a1 (default_config env)
                          | [] => default_config env
                          end))).
Proof.
  intros H. unfold parseArgs, default_config. cbn [os_Args with_args].
  change (Getenv _ "GITHUB_TOKEN") with (Getenv env "GITHUB_TOKEN").
  generalize (Getenv env "GITHUB_TOKEN"). intros token.
  unfold Flag.NewFlagSet.
  do 12 define_flag.
  rewrite (bind_ok_eq _ _ _ _ _ (Parse_positional showHelp _ a rest st H)).
  destruct rest; reflexivity.
Qed.

(** C6, as the code behaves: parsing stops at the first positional, so a
    flag placed after the positionals is not recognised.  On
    [cli gh --count 20], the example of the program's own help text, the
    count stays 10, while [--count 20 cli gh] sets it to 20. *)
Theorem flag_after_positionals_not_recognised (env : Env) (st : proc) :
  parseArgs (with_args env ["cli"; "gh"; "--count"; "20"]) st
  = (st, Ok (set_Repo "gh" (set_Owner "cli" (default_config env)))) /\
  parseArgs (with_args env ["--count"; "20"; "cli"; "gh"]) st
  = (st, Ok (set_Count 20 (set_Repo "gh" (set_Owner "cli" (default_config env))))).
Proof. split; vm_compute; reflexivity. Qed.

(** ** The run *)

Section Run.

Lemma after_nil st : after st [] = st.
Proof. destruct st. unfold after. simpl. rewrite app_nil_r. reflexivity. Qed.

Lemma after_after st evs evs' : after (after st evs) evs' = after st (evs ++ evs').
Proof. unfold after. simpl. rewrite app_assoc. reflexivity. Qed.

Lemma emit_after e st : emit e st = (after st [e], Ok tt).
Proof. reflexivity. Qed.

Lemma append_cons x (a b : string) : String x a +:+ b = String x (a +:+ b).
Proof. reflexivity. Qed.

Lemma append_nil_r (a : string) : a +:+ "" = a.
Proof. induction a as [|x a IH]; [reflexivity|]. rewrite append_cons, IH. reflexivity. Qed.

Lemma append_assoc (a b c : string) : (a +:+ b) +:+ c = a +:+ (b +:+ c).
Proof.
  induction a as [|x a IH]; [reflexivity|]. rewrite !append_cons, IH. reflexivity.
Qed.

Lemma errorMessages_from acc (errors : list GraphQLError.t) :
  fold_left (fun acc e => acc +:+ "- " +:+ GraphQLError.Message e +:+ nl) errors acc
  = acc +:+ error_lines errors.
Proof.
  revert acc. induction errors as [|e errors IH]; intros acc; simpl.
  - rewrite append_nil_r. reflexivity.
  - rewrite IH. rewrite !append_assoc. reflexivity.
Qed.

Lemma errorMessages_lines (errors : slice GraphQLError.t) :
  errorMessages errors = error_lines (elems errors).
Proof. unfold errorMessages. rewrite errorMessages_from. reflexivity. Qed.

(** The run up to the end of the fetch, when the arguments resolve to a
    configuration that asks for neither help nor the version. *)
Lemma run_fetch env st st' cfg status body close_err :
  parseArgs env st = (st', Ok cfg) ->
  Config.Help cfg = false -> Config.Version cfg = false ->
  http_Do env (Config.Owner cfg) (Config.Repo cfg) (Config.Count cfg) (Config.Token cfg)
  = Response status body close_err ->
  run env st
  = run_result env cfg
      (if status >=? 400 then
         inl ("GitHub API responded with status " +:+ fmt_d status +:+ ": " +:+ body)
       else match json_Decode env body with
            | inl err => inl ("failed to decode GitHub API response: " +:+ err)
            | inr result => inr result
            end)
      (after st (fetch_events cfg close_err)).
Proof.
  intros Hparse Hhelp Hversion Hhttp.
  pose proof (parseArgs_silent env _ _ _ Hparse) as ->.
  unfold run. rewrite (bind_ok_eq _ _ _ _ _ Hparse). rewrite Hhelp, Hversion.
  unfold fetchGraphQL, fetch_events. rewrite Hhttp.
  destruct (Config.Quiet cfg), (String.eqb (Config.Token cfg) ""), close_err;
    unfold bind, when, showBanner, emit, ret, after; simpl;
    rewrite <- ?app_assoc; reflexivity.
Qed.

(** [main] after a run that returned an error. *)
Lemma main_error env st st' msg :
  run env st = (st', Ok (Some msg)) ->
  main env st = (after st' [PrintError msg], Exit 1).
Proof. intros H. unfold main. rewrite (bind_ok_eq _ _ _ _ _ H). reflexivity. Qed.

Lemma main_success env st st' :
  run env st = (st', Ok None) -> main env st = (st', Ok tt).
Proof. intros H. unfold main. rewrite (bind_ok_eq _ _ _ _ _ H). reflexivity. Qed.

Lemma error_lines_contains (errors : list GraphQLError.t) (e : GraphQLError.t) :
  In e errors ->
  exists pre post,
    error_lines errors = pre +:+ ("- " +:+ GraphQLError.Message e +:+ nl) +:+ post.
Proof.
  induction errors as [|e' errors IH]; intros Hin; [destruct Hin|].
  destruct Hin as [->|Hin].
  - exists "", (error_lines errors). simpl. rewrite !append_assoc. reflexivity.
  - destruct (IH Hin) as (pre & post & Heq).
    exists (("- " +:+ GraphQLError.Message e' +:+ nl) +:+ pre), post.
    simpl. rewrite Heq. rewrite !append_assoc. reflexivity.
Qed.

(** C7: when the remote answers the request of the run with a status of
    400 or more, [run] returns the error that carries the status and the
    bytes of the body; the files are those of the start, whatever
    [os.WriteFile] would do; and [main] prints that error and exits with
    status 1. *)
Theorem remote_rejection_aborts env st st' cfg status body close_err :
  parseArgs env st = (st', Ok cfg) ->
  Config.Help cfg = false -> Config.Version cfg = false ->
  http_Do env (Config.Owner cfg) (Config.Repo cfg) (Config.Count cfg) (Config.Token cfg)
  = Response status body close_err ->
  400 <= status ->
  let msg := "GitHub API responded with status " +:+ fmt_d status +:+ ": " +:+ body in
  let st_run := after st (fetch_events cfg close_err) in
  run env st = (st_run, Ok (Some msg)) /\
  files st_run = files st /\
  main env st = (after st_run [PrintError msg], Exit 1) /\
  files (after st_run [PrintError msg]) = files st /\
  exit_status (snd (main env st)) = Some 1.
Proof.
  intros Hparse Hhelp Hversion Hhttp Hstatus msg st_run.
  assert (Hrun : run env st = (st_run, Ok (Some msg))).
  { rewrite (run_fetch env st st' cfg status body close_err) by assumption.
    destruct (status >=? 400) eqn:E; [reflexivity | lia]. }
  pose proof (main_error env st st_run msg Hrun) as Hmain.
  rewrite Hmain. repeat split; assumption.
Qed.

Lemma remote_rejection_aborts_witness :
  run (sample_env []) sample_proc
  = (after sample_proc (fetch_events (default_config (sample_env [])) None),
     Ok (Some "GitHub API responded with status 404: Not Found")).
Proof.
  refine (proj1 (remote_rejection_aborts (sample_env []) sample_proc sample_proc
                   (default_config (sample_env [])) 404 "Not Found" None _ _ _ _ _)).
  - vm_compute. reflexivity.
  - reflexivity.
  - reflexivity.
  - reflexivity.
  - lia.
Defined.

(** C8: when the remote answers with a status below 400 (200, say) and the
    decoded body has a non-empty error list, [run] returns the error
    "GraphQL returned errors:" followed by one line per error of the list,
    in order, each error message being on one of them; the result does not
    depend on the data of the response, which is not normalised; the files
    are those of the start; and [main] prints the error and exits with
    status 1. *)
Theorem query_errors_abort env st st' cfg status body close_err result :
  parseArgs env st = (st', Ok cfg) ->
  Config.Help cfg = false -> Config.Version cfg = false ->
  http_Do env (Config.Owner cfg) (Config.Repo cfg) (Config.Count cfg) (Config.Token cfg)
  = Response status body close_err ->
  status < 400 ->
  json_Decode env body = inr result ->
  (0 < len (GraphQLResponse.Errors result))%nat ->
  let msg := "GraphQL returned errors:" +:+ nl
             +:+ error_lines (elems (GraphQLResponse.Errors result)) in
  let st_run := after st (fetch_events cfg close_err) in
  run env st = (st_run, Ok (Some msg)) /\
  (forall e, In e (elems (GraphQLResponse.Errors result)) ->
     exists pre post, msg = pre +:+ ("- " +:+ GraphQLError.Message e +:+ nl) +:+ post) /\
  files st_run = files st /\
  main env st = (after st_run [PrintError msg], Exit 1) /\
  exit_status (snd (main env st)) = Some 1.
Proof.
  intros Hparse Hhelp Hversion Hhttp Hstatus Hdecode Herrors msg st_run.
  assert (Hrun : run env st = (st_run, Ok (Some msg))).
  { rewrite (run_fetch env st st' cfg status body close_err) by assumption.
    destruct (status >=? 400) eqn:E; [lia|]. rewrite Hdecode.
    unfold run_result.
    destruct (0 <? len (GraphQLResponse.Errors result))%nat eqn:E0;
      [|apply Nat.ltb_ge in E0; lia].
    rewrite errorMessages_lines. reflexivity. }
  pose proof (main_error env st st_run msg Hrun) as Hmain.
  rewrite Hmain. repeat split; try assumption.
  intros e Hin. destruct (error_lines_contains _ e Hin) as (pre & post & Heq).
  exists (("GraphQL returned errors:" +:+ nl) +:+ pre), post.
  unfold msg. rewrite Heq. rewrite !append_assoc. reflexivity.
Qed.

Lemma query_errors_abort_witness :
  exists msg,
    run (errors_env ["-q"; "-t"; "secret"]) sample_proc
    = (mkProc [HttpPost "Typeflu" "gale" 10 "secret"; SpinnerStop] ∅, Ok (Some msg)).
Proof.
  eexists.
  refine (proj1 (query_errors_abort (errors_env ["-q"; "-t"; "secret"]) sample_proc
                   sample_proc
                   (set_Token "secret" (set_Quiet true (default_config (errors_env []))))
                   200 "{}" None (GraphQLResponse.mk None query_errors) _ _ _ _ _ _ _)).
  - vm_compute. reflexivity.
  - reflexivity.
  - reflexivity.
  - reflexivity.
  - lia.
  - reflexivity.
  - unfold len, query_errors. simpl. lia.
Defined.

(** C10: when the arguments resolve to a configuration with both the help
    and the version switch on, [run] prints the banner and the usage text
    and nothing else (no version line), sends no request, leaves the files
    as they are and returns without an error, so that [main] returns and
    the process exits with status 0. *)
Theorem help_precedes_version env st st' cfg :
  parseArgs env st = (st', Ok cfg) ->
  Config.Help cfg = true -> Config.Version cfg = true ->
  run env st = (after st [PrintBanner; PrintHelp], Ok None) /\
  main env st = (after st [PrintBanner; PrintHelp], Ok tt) /\
  files (after st [PrintBanner; PrintHelp]) = files st /\
  exit_status (snd (main env st)) = Some 0.
Proof.
  intros Hparse Hhelp Hversion.
  pose proof (parseArgs_silent env _ _ _ Hparse) as ->.
  assert (Hrun : run env st = (after st [PrintBanner; PrintHelp], Ok None)).
  { unfold run. rewrite (bind_ok_eq _ _ _ _ _ Hparse). rewrite Hhelp.
    unfold bind, showBanner, showHelp, emit, ret, after. simpl.
    rewrite <- app_assoc. reflexivity. }
  rewrite (main_success _ _ _ Hrun). repeat split. assumption.
Qed.

Lemma help_precedes_version_witness :
  run (sample_env ["-v"; "--help"]) sample_proc
  = (mkProc [PrintBanner; PrintHelp] ∅, Ok None).
Proof.
  refine (proj1 (help_precedes_version (sample_env ["-v"; "--help"]) sample_proc sample_proc
                   (set_Version true (set_Help true (default_config (sample_env []))))
                   _ _ _)).
  - vm_compute. reflexivity.
  - reflexivity.
  - reflexivity.
Defined.

End Run.

(** ** Binary64 arithmetic of [formatBytes] *)

Section Binary64.

Lemma fexp_normal e : -1021 <= e -> fexp 53 1024 e = e - 53.
Proof. intros H. unfold fexp, emin. lia. Qed.

Lemma iter_xO_val p d : Z.pos (Pos.iter xO p d) = Z.pos p * 2 ^ Z.pos d.
Proof.
  revert p. induction d using Pos.peano_ind; intros p.
  - simpl. lia.
  - rewrite Pos.iter_succ. rewrite Pos2Z.inj_xO, IHd, Pos2Z.inj_succ, Z.pow_succ_r by lia. lia.
Qed.

Lemma digits2_pos_bounds p : 2 ^ (Z.pos (digits2_pos p) - 1) <= Z.pos p < 2 ^ Z.pos (digits2_pos p).
Proof.
  induction p as [p IH|p IH|]; simpl digits2_pos.
  - rewrite Pos2Z.inj_succ. replace (Z.succ (Z.pos (digits2_pos p)) - 1) with (Z.succ (Z.pos (digits2_pos p) - 1)) by lia.
    rewrite !Z.pow_succ_r by lia. lia.
  - rewrite Pos2Z.inj_succ. replace (Z.succ (Z.pos (digits2_pos p)) - 1) with (Z.succ (Z.pos (digits2_pos p) - 1)) by lia.
    rewrite !Z.pow_succ_r by lia. lia.
  - simpl. lia.
Qed.

Lemma digits2_pos_unique p n : 2 ^ (n - 1) <= Z.pos p < 2 ^ n -> Z.pos (digits2_pos p) = n.
Proof.
  intros [Hlo Hhi]. pose proof (digits2_pos_bounds p) as [Blo Bhi].
  assert (0 < n). { destruct (Z_lt_le_dec 0 n); [assumption|]. 
    assert (2 ^ n <= 2 ^ 0) by (destruct (Z_lt_le_dec n 0); [rewrite Z.pow_neg_r by lia; simpl; lia | apply Z.pow_le_mono_r; lia]). simpl in *. lia. }
  destruct (Z.lt_trichotomy (Z.pos (digits2_pos p)) n) as [Hlt|[Heq|Hgt]]; [|assumption|].
  - assert (2 ^ Z.pos (digits2_pos p) <= 2 ^ (n - 1)) by (apply Z.pow_le_mono_r; lia). lia.
  - assert (2 ^ n <= 2 ^ (Z.pos (digits2_pos p) - 1)) by (apply Z.pow_le_mono_r; lia). lia.
Qed.

(** A canonical mantissa passes the rounding unchanged. *)
Lemma binary_round_aux_canonical m e :
  Z.pos (digits2_pos m) = 53 -> -1074 <= e <= 971 ->
  binary_round_aux 53 1024 false (Z.pos m) e loc_Exact = S754_finite false m e.
Proof.
  intros Hd He. unfold binary_round_aux, shr_fexp. 
  cbn [Zdigits2 shr_record_of_loc]. rewrite Hd, fexp_normal by lia.
  replace (53 + e - 53 - e) with 0 by lia. cbn [shr shr_m loc_of_shr_record round_nearest_even Zdigits2].
  rewrite Hd, fexp_normal by lia.  replace (53 + e - 53 - e) with 0 by lia. cbn [shr shr_m].
  destruct (e <=? 1024 - 53) eqn:E; [reflexivity|]. lia.
Qed.

Lemma digits2_iter_xO p d : Z.pos (digits2_pos (Pos.iter xO p d)) = Z.pos (digits2_pos p) + Z.pos d.
Proof.
  apply digits2_pos_unique. rewrite iter_xO_val.
  pose proof (digits2_pos_bounds p) as [Blo Bhi].
  replace (Z.pos (digits2_pos p) + Z.pos d - 1) with ((Z.pos (digits2_pos p) - 1) + Z.pos d) by lia.
  rewrite !Z.pow_add_r by lia.
  assert (0 < 2 ^ Z.pos d) by (apply Z.pow_pos_nonneg; lia). nia.
Qed.

(** The mantissa and exponent of an integer that fits in 53 bits. *)
Lemma float64_of_int_small p :
  Z.pos (digits2_pos p) <= 53 ->
  exists m, float64_of_int (Z.pos p) = S754_finite false m (Z.pos (digits2_pos p) - 53)
            /\ Z.pos (digits2_pos m) = 53
            /\ Z.pos m = Z.pos p * 2 ^ (53 - Z.pos (digits2_pos p)).
Proof.
  intros Hd. unfold float64_of_int, binary_normalize, binary_round.
  rewrite Z.add_0_r, fexp_normal by lia. unfold shl_align.
  destruct (Z.pos (digits2_pos p) - 53 - 0) as [|k|k] eqn:Ek; try lia.
  - exists p. assert (Z.pos (digits2_pos p) = 53) as E by lia.
    replace (Z.pos (digits2_pos p) - 53) with 0 by lia.
    split; [apply binary_round_aux_canonical; [assumption | lia]|]. split; [assumption|].
    rewrite E. simpl. lia.
  - exists (Pos.iter xO p k).
    assert (Hk : Z.pos k = 53 - Z.pos (digits2_pos p)) by lia.
    assert (Z.pos (digits2_pos (Pos.iter xO p k)) = 53) by (rewrite digits2_iter_xO; lia).
    split; [apply binary_round_aux_canonical; [assumption | lia]|]. split; [assumption|].
    rewrite iter_xO_val, Hk. reflexivity.
Qed.

Lemma div_eucl_exact a b : 0 < b -> Z.div_eucl (a * b) b = (a, 0).
Proof.
  intros Hb.
  assert (Hq : (a * b) / b = a) by (apply Z.div_mul; lia).
  assert (Hr : (a * b) mod b = 0) by (apply Z.mod_mul; lia).
  unfold Z.div in Hq. unfold Z.modulo in Hr.
  destruct (Z.div_eucl (a * b) b) as [q r]. congruence.
Qed.

(** Dividing a normal number by a power of two only changes the exponent. *)
Lemma float64_div_pow2 m e e2 :
  Z.pos (digits2_pos m) = 53 -> -1000 <= e - e2 <= 900 ->
  float64_div (S754_finite false m e) (S754_finite false 4503599627370496 e2)
  = S754_finite false m (e - e2 - 52).
Proof.
  intros Hd He. unfold float64_div, SFdiv, SFdiv_core_binary.
  cbn [Zdigits2]. rewrite Hd. change (Z.pos (digits2_pos 4503599627370496)) with 53.
  replace (53 + e - (53 + e2)) with (e - e2) by lia. rewrite fexp_normal by lia.
  rewrite Z.min_l by lia. replace (e - e2 - (e - e2 - 53)) with 53 by lia.
  rewrite Z.shiftl_mul_pow2 by lia.
  replace (Z.pos m * 2 ^ 53) with ((Z.pos m * 2) * 4503599627370496) by (change (2 ^ 53) with 9007199254740992; lia).
  rewrite div_eucl_exact by lia.
  change (new_location 4503599627370496 0) with loc_Exact. cbn [xorb].
  replace (Z.pos m * 2) with (Z.pos m~0) by lia.
  unfold binary_round_aux, shr_fexp. cbn [Zdigits2 digits2_pos shr_record_of_loc].
  rewrite Pos2Z.inj_succ, Hd, fexp_normal by lia.
  replace (Z.succ 53 + (e - e2 - 53) - 53 - (e - e2 - 53)) with 1 by lia.
  cbn [shr SpecFloat.iter_pos shr_1 shr_m loc_of_shr_record round_nearest_even orb Zdigits2].
  rewrite Hd, fexp_normal by lia.
  replace (53 + (e - e2 - 53 + 1) - 53 - (e - e2 - 53 + 1)) with 0 by lia. cbn [shr shr_m].
  destruct (e - e2 - 53 + 1 <=? 1024 - 53) eqn:E; [|lia]. f_equal. lia.
Qed.

Lemma shr_1_m m r s : 0 <= m -> shr_1 (Build_shr_record m r s) = Build_shr_record (m / 2) (Z.odd m) (r || s).
Proof.
  intros Hm. destruct m as [|[p|p|]|p]; try lia; cbn [shr_1].
  - reflexivity.
  - f_equal. rewrite Pos2Z.inj_xI. apply Z.div_unique with 1; lia.
  - f_equal. rewrite Pos2Z.inj_xO. apply Z.div_unique with 0; lia.
  - reflexivity.
Qed.

Lemma shifted_step b j rec : 0 <= b -> 0 <= j -> shifted b j rec -> shifted b (j + 1) (shr_1 rec).
Proof.
  intros Hb Hj (Hm & Hr & Hs). destruct rec as [m r s]. cbn [shr_m shr_r shr_s] in *.
  assert (0 < 2 ^ j) by (apply Z.pow_pos_nonneg; lia).
  assert (0 <= m) by (rewrite Hm; apply Z.div_pos; lia).
  rewrite shr_1_m by assumption. unfold shifted. cbn [shr_m shr_r shr_s].
  replace (j + 1 - 1) with j by lia.
  destruct (j + 1 =? 0) eqn:E; [lia|]. repeat split.
  - rewrite Hm, Z.div_div by lia. rewrite Z.pow_add_r by lia. reflexivity.
  - rewrite Hm. reflexivity.
  - rewrite Hr, Hs. destruct (j =? 0) eqn:E0.
    + apply Z.eqb_eq in E0. subst j. simpl. rewrite Z.mod_1_r. reflexivity.
    + assert (0 < 2 ^ (j - 1)) by (apply Z.pow_pos_nonneg; lia).
      assert (Hj2 : 2 ^ j = 2 ^ (j - 1) * 2).
      { replace j with (Z.succ (j - 1)) at 1 by lia. rewrite Z.pow_succ_r by lia. lia. }
      rewrite Hj2. rewrite Z.rem_mul_r by lia.
      rewrite (Zmod_odd (b / 2 ^ (j - 1))).
      pose proof (Z.mod_pos_bound b (2 ^ (j - 1)) ltac:(lia)).
      destruct (Z.odd (b / 2 ^ (j - 1))); destruct (Z.eqb_spec (b mod 2 ^ (j - 1)) 0) as [E1|E1];
        cbn [orb negb];
        match goal with |- _ = negb (?e =? 0) => destruct (Z.eqb_spec e 0) end;
        cbn [negb]; try reflexivity; exfalso; nia.
Qed.

Lemma shifted_iter k : forall b j rec, 0 <= b -> 0 <= j -> shifted b j rec ->
  shifted b (j + Z.pos k) (SpecFloat.iter_pos shr_1 k rec).
Proof.
  induction k as [k IH|k IH|]; intros b j rec Hb Hj H; cbn [SpecFloat.iter_pos].
  - replace (j + Z.pos k~1) with (((j + 1) + Z.pos k) + Z.pos k) by lia.
    apply IH; [lia|lia|]. apply IH; [lia|lia|]. apply shifted_step; assumption.
  - replace (j + Z.pos k~0) with ((j + Z.pos k) + Z.pos k) by lia.
    apply IH; [lia|lia|]. apply IH; assumption.
  - apply shifted_step; assumption.
Qed.

Lemma round_after_shift b k rec : 0 <= b -> 0 < k -> shifted b k rec ->
  round_nearest_even (shr_m rec) (loc_of_shr_record rec) = round_half_even b (2 ^ k).
Proof.
  intros Hb Hk (Hm & Hr & Hs). destruct rec as [m r s]. cbn [shr_m shr_r shr_s] in *.
  destruct (k =? 0) eqn:E; [lia|]. unfold round_half_even. rewrite <- Hm.
  assert (0 < 2 ^ (k - 1)) by (apply Z.pow_pos_nonneg; lia).
  assert (Hk2 : 2 ^ k = 2 ^ (k - 1) * 2).
  { replace k with (Z.succ (k - 1)) at 1 by lia. rewrite Z.pow_succ_r by lia. lia. }
  rewrite Hk2. rewrite Z.rem_mul_r by lia. rewrite (Zmod_odd (b / 2 ^ (k - 1))), <- Hr.
  pose proof (Z.mod_pos_bound b (2 ^ (k - 1)) ltac:(lia)).
  destruct r; destruct (Z.eqb_spec (b mod 2 ^ (k - 1)) 0) as [E1|E1]; simpl in Hs; subst s;
    cbn [loc_of_shr_record round_nearest_even];
    match goal with |- _ = match ?x ?= ?y with _ => _ end => destruct (Z.compare_spec x y) end;
    first [reflexivity | exfalso; nia].
Qed.

Lemma round_half_even_bounds num den : 0 < den ->
  num / den <= round_half_even num den <= num / den + 1.
Proof.
  intros Hd. unfold round_half_even.
  destruct (2 * (num mod den) ?= den); [destruct (Z.even (num / den))| |]; lia.
Qed.

(** The mantissa and exponent of an integer of more than 53 bits. *)
Lemma float64_of_int_large p :
  53 < Z.pos (digits2_pos p) <= 1000 ->
  exists m e, float64_of_int (Z.pos p) = S754_finite false m e
            /\ Z.pos (digits2_pos m) = 53
            /\ Z.pos (digits2_pos p) - 53 <= e <= Z.pos (digits2_pos p) - 52
            /\ Z.pos m * 2 ^ e
               = round_half_even (Z.pos p) (2 ^ (Z.pos (digits2_pos p) - 53))
                 * 2 ^ (Z.pos (digits2_pos p) - 53).
Proof.
  intros Hd. pose proof (digits2_pos_bounds p) as [Blo Bhi].
  set (dg := Z.pos (digits2_pos p)) in *. set (k := dg - 53).
  assert (Hk : 0 < k) by (unfold k; lia).
  assert (Hpk : 0 < 2 ^ k) by (apply Z.pow_pos_nonneg; lia).
  assert (Hsplit : 2 ^ dg = 2 ^ 53 * 2 ^ k).
  { rewrite <- Z.pow_add_r by lia. f_equal. unfold k. lia. }
  assert (Hsplit' : 2 ^ (dg - 1) = 2 ^ 52 * 2 ^ k).
  { rewrite <- Z.pow_add_r by lia. f_equal. unfold k. lia. }
  assert (Hq : 2 ^ 52 <= Z.pos p / 2 ^ k < 2 ^ 53).
  { split.
    - apply Z.div_le_lower_bound; lia.
    - apply Z.div_lt_upper_bound; lia. }
  pose proof (round_half_even_bounds (Z.pos p) (2 ^ k) Hpk) as Hrb.
  unfold float64_of_int, binary_normalize, binary_round.
  rewrite Z.add_0_r. fold dg. rewrite fexp_normal by lia. fold k. unfold shl_align.
  destruct (k - 0) as [|kk|kk] eqn:Ek; try lia.
  assert (Hkk : Z.pos kk = k) by lia.
  unfold binary_round_aux, shr_fexp. cbn [Zdigits2 shr_record_of_loc]. fold dg.
  rewrite Z.add_0_r, fexp_normal by lia. fold k. rewrite Ek. cbn [shr].
  assert (Hsh : shifted (Z.pos p) k (SpecFloat.iter_pos shr_1 kk (Build_shr_record (Z.pos p) false false))).
  { rewrite <- Hkk. replace (Z.pos kk) with (0 + Z.pos kk) by lia.
    apply shifted_iter; [lia | lia |]. unfold shifted. cbn. rewrite Z.div_1_r. auto. }
  rewrite (round_after_shift (Z.pos p) k _ (Pos2Z.is_nonneg p) Hk Hsh).
  set (m2 := round_half_even (Z.pos p) (2 ^ k)) in *.
  replace (0 + Z.pos kk) with k by lia.
  change (2 ^ 52) with 4503599627370496 in *. change (2 ^ 53) with 9007199254740992 in *.
  destruct m2 as [|mx|mx] eqn:Em2; try lia.
  destruct (Z_lt_le_dec (Z.pos mx) 9007199254740992) as [Hlt|Hge].
  - assert (Hdm : Z.pos (digits2_pos mx) = 53).
    { apply digits2_pos_unique. change (2 ^ (53 - 1)) with 4503599627370496.
      change (2 ^ 53) with 9007199254740992. lia. }
    exists mx, k. cbn [Zdigits2]. rewrite Hdm, fexp_normal by lia.
    replace (53 + k - 53 - k) with 0 by lia. cbn [shr shr_m].
    destruct (k <=? 1024 - 53) eqn:E; [|lia]. repeat split; first [lia | assumption].
  - assert (Hmx : mx = 9007199254740992%positive) by lia. subst mx.
    exists 4503599627370496%positive, (k + 1).
    cbn [Zdigits2].
    change (Z.pos (digits2_pos 9007199254740992)) with 54. rewrite fexp_normal by lia.
    replace (54 + k - 53 - k) with 1 by lia.
    cbn [shr SpecFloat.iter_pos shr_1 shr_m orb].
    destruct (k + 1 <=? 1024 - 53) eqn:E; [|lia]. repeat split; try lia.
    rewrite Z.pow_add_r by lia. change (2 ^ 1) with 2. lia.
Qed.

Lemma round_half_even_one b : round_half_even b 1 = b.
Proof.
  unfold round_half_even. rewrite Z.mod_1_r, Z.div_1_r. reflexivity.
Qed.

Lemma round_half_even_scale num den c :
  0 < den -> 0 < c -> round_half_even (num * c) (den * c) = round_half_even num den.
Proof.
  intros Hd Hc. unfold round_half_even.
  rewrite Z.div_mul_cancel_r by lia. rewrite Z.mul_mod_distr_r by lia.
  replace (2 * (num mod den * c)) with (2 * (num mod den) * c) by lia.
  rewrite <- (Zmult_compare_compat_r (2 * (num mod den)) den c) by lia.
  reflexivity.
Qed.

Lemma digits2_pos_log2 p : Z.pos (digits2_pos p) = Z.log2 (Z.pos p) + 1.
Proof.
  pose proof (digits2_pos_bounds p) as [Blo Bhi].
  assert (Z.log2 (Z.pos p) = Z.pos (digits2_pos p) - 1); [|lia].
  apply Z.log2_unique; [lia|].
  replace (Z.succ (Z.pos (digits2_pos p) - 1)) with (Z.pos (digits2_pos p)) by lia. lia.
Qed.

Lemma float64_value_small b : 0 < b < 2 ^ 53 -> float64_value b = b.
Proof.
  intros Hb. unfold float64_value.
  assert (Z.log2 b < 53) by (apply Z.log2_lt_pow2; lia).
  rewrite Z.max_l by lia. change (2 ^ 0) with 1.
  rewrite round_half_even_one. lia.
Qed.

(** [float64(b)] for a positive integer [b] of at most 1000 bits is a
    normal number whose value is [float64_value b]. *)
Lemma float64_of_int_value p :
  Z.pos (digits2_pos p) <= 1000 ->
  exists m e, float64_of_int (Z.pos p) = S754_finite false m e
            /\ Z.pos (digits2_pos m) = 53
            /\ Z.pos (digits2_pos p) - 53 <= e <= Z.pos (digits2_pos p) - 52
            /\ Z.pos m * 2 ^ (e + 53) = float64_value (Z.pos p) * 2 ^ 53.
Proof.
  intros Hd. destruct (Z_le_gt_dec (Z.pos (digits2_pos p)) 53) as [Hs|Hl].
  - destruct (float64_of_int_small p Hs) as (m & Hf & Hm & Hv).
    exists m, (Z.pos (digits2_pos p) - 53). repeat split; try assumption; try lia.
    rewrite Hv. rewrite float64_value_small.
    + rewrite <- Z.mul_assoc, <- Z.pow_add_r by lia. do 2 f_equal. lia.
    + pose proof (digits2_pos_bounds p) as [_ Bhi]. split; [lia|].
      assert (2 ^ Z.pos (digits2_pos p) <= 2 ^ 53) by (apply Z.pow_le_mono_r; lia). lia.
  - destruct (float64_of_int_large p) as (m & e & Hf & Hm & He & Hv); [lia|].
    exists m, e. repeat split; try assumption; try lia.
    rewrite Z.pow_add_r by lia. rewrite Z.mul_assoc, Hv. unfold float64_value.
    rewrite digits2_pos_log2. replace (Z.log2 (Z.pos p) + 1 - 53) with (Z.log2 (Z.pos p) - 52) by lia.
    rewrite digits2_pos_log2 in Hl. rewrite Z.max_r by lia. reflexivity.
Qed.

Lemma float64_of_pow1024 d :
  1 <= d <= 6 ->
  float64_of_int (1024 ^ d) = S754_finite false 4503599627370496 (10 * d - 52).
Proof.
  intros Hd. assert (d = 1 \/ d = 2 \/ d = 3 \/ d = 4 \/ d = 5 \/ d = 6) as H by lia.
  destruct H as [->|[->|[->|[->|[->| ->]]]]]; vm_compute; reflexivity.
Qed.

(** The text that [%.1f] gives for [float64(b) / float64(1024^d)] when [d]
    divisions bring [b] below 1024: the value of [float64(b)] over
    [1024^d], in tenths rounded to nearest, ties to even. *)
Lemma fmt_f1_quotient b d :
  0 < b <= max_int -> 1 <= d <= 6 -> b / 1024 ^ d < 1024 ->
  fmt_f1 (float64_div (float64_of_int b) (float64_of_int (1024 ^ d)))
  = fixed1 (round_half_even (10 * float64_value b) (1024 ^ d)).
Proof.
  intros Hb Hd Hq. destruct b as [|p|p]; try lia.
  pose proof (digits2_pos_bounds p) as [Blo Bhi].
  assert (Hpd : 0 < 1024 ^ d) by (apply Z.pow_pos_nonneg; lia).
  assert (Hdg63 : Z.pos (digits2_pos p) <= 63).
  { destruct (Z_le_gt_dec (Z.pos (digits2_pos p)) 63) as [|Hgt]; [assumption|].
    assert (2 ^ 63 <= 2 ^ (Z.pos (digits2_pos p) - 1)) by (apply Z.pow_le_mono_r; lia).
    unfold max_int in Hb. lia. }
  assert (Hdg : Z.pos (digits2_pos p) <= 10 * d + 10).
  { destruct (Z_le_gt_dec (Z.pos (digits2_pos p)) (10 * d + 10)) as [|Hgt]; [assumption|].
    assert (2 ^ (10 * d + 10) <= 2 ^ (Z.pos (digits2_pos p) - 1)) by (apply Z.pow_le_mono_r; lia).
    assert (Z.pos p < 1024 * 1024 ^ d).
    { pose proof (Z.mul_succ_div_gt (Z.pos p) (1024 ^ d) Hpd). nia. }
    rewrite Z.pow_add_r, Z.pow_mul_r in H by lia.
    change (2 ^ 10) with 1024 in H. lia. }
  destruct (float64_of_int_value p) as (m & e & Hf & Hm & He & Hv); [lia|].
  rewrite Hf, float64_of_pow1024 by assumption.
  rewrite float64_div_pow2 by (try assumption; lia).
  replace (e - (10 * d - 52) - 52) with (e - 10 * d) by lia.
  cbn [fmt_f1]. f_equal. unfold tenths.
  destruct (0 <=? e - 10 * d) eqn:E; [lia|].
  assert (Hc : 0 < 2 ^ (e + 53)) by (apply Z.pow_pos_nonneg; lia).
  assert (Hden : 0 < 2 ^ (- (e - 10 * d))) by (apply Z.pow_pos_nonneg; lia).
  rewrite <- (round_half_even_scale (10 * Z.pos m) _ (2 ^ (e + 53)) Hden Hc).
  rewrite <- (round_half_even_scale (10 * float64_value (Z.pos p)) (1024 ^ d) (2 ^ 53) Hpd)
    by (apply Z.pow_pos_nonneg; lia).
  f_equal.
  - rewrite <- !Z.mul_assoc. rewrite Hv. reflexivity.
  - rewrite <- Z.pow_add_r by lia.
    replace (1024 ^ d) with (2 ^ (10 * d)) by (rewrite Z.pow_mul_r by lia; reflexivity).
    rewrite <- Z.pow_add_r by lia. f_equal. lia.
Qed.

End Binary64.

(** ** The text of formatBytes *)

Section FormatText.

Lemma string_of_uint_digits (d : Decimal.uint) :
  all_digits (NilEmpty.string_of_uint d) = true.
Proof. induction d; simpl; try assumption; reflexivity. Qed.

Lemma fmt_d_digits z : 0 <= z -> all_digits (fmt_d z) = true.
Proof.
  intros Hz. destruct z as [|p|p]; try lia; [reflexivity|].
  unfold fmt_d. simpl. unfold NilZero.string_of_uint.
  destruct (Pos.to_uint p) eqn:E; try reflexivity;
    rewrite <- E; apply string_of_uint_digits.
Qed.

Lemma digit_char_digit d : 0 <= d < 10 -> is_digit (digit_char d) = true.
Proof.
  intros Hd.
  assert (d = 0 \/ d = 1 \/ d = 2 \/ d = 3 \/ d = 4 \/ d = 5 \/ d = 6 \/ d = 7
          \/ d = 8 \/ d = 9) as H by lia.
  repeat (destruct H as [->|H]; [reflexivity|]). subst d. reflexivity.
Qed.

Lemma round_half_even_nonneg num den : 0 <= num -> 0 < den -> 0 <= round_half_even num den.
Proof.
  intros Hn Hd. pose proof (round_half_even_bounds num den Hd).
  assert (0 <= num / den) by (apply Z.div_pos; lia). lia.
Qed.

Lemma float64_value_nonneg b : 0 <= b -> 0 <= float64_value b.
Proof.
  intros Hb. unfold float64_value.
  assert (0 < 2 ^ Z.max 0 (Z.log2 b - 52)) by (apply Z.pow_pos_nonneg; lia).
  pose proof (round_half_even_nonneg b _ Hb H). nia.
Qed.

(** C4, as the code renders it: "0 B" for 0; the integer in decimal
    digits and " B" below 1024; and from 1024 on, with [d] the least number
    of divisions by 1024 that brings the value below 1024 (at most 6), the
    value as [float64] holds it (the value itself below [2^53], else the
    value rounded to 53 significant bits) over [1024^d], in tenths rounded
    to nearest with ties to even, written as an integer part, a point and
    exactly one digit, then a space, the letter of index [d - 1] of K, M,
    G, T, P, E and "B".  In particular 1536 gives "1.5 KB" and 1610612736
    gives "1.5 GB". *)
Theorem formatBytes_rendering (b : Z) :
  0 <= b <= max_int ->
  (b = 0 -> formatBytes b = Ok "0 B") /\
  (b < 1024 -> formatBytes b = Ok (fmt_d b +:+ " B") /\ all_digits (fmt_d b) = true) /\
  (1024 <= b ->
   exists d letter,
     1 <= d <= 6 /\ b / 1024 ^ d < 1024 /\
     (forall k, 0 <= k < d -> 1024 <= b / 1024 ^ k) /\
     unit_letters !! Z.to_nat (d - 1) = Some letter /\
     let t := round_half_even (10 * float64_value b) (1024 ^ d) in
     formatBytes b
     = Ok ((fmt_d (t / 10) +:+ "." +:+ String (digit_char (t mod 10)) "")
           +:+ " " +:+ String letter "B") /\
     all_digits (fmt_d (t / 10)) = true /\
     is_digit (digit_char (t mod 10)) = true /\
     (b < 2 ^ 53 -> float64_value b = b)) /\
  formatBytes 1536 = Ok "1.5 KB" /\
  formatBytes 1610612736 = Ok "1.5 GB".
Proof.
  intros Hb. split; [|split; [|split; [|split]]].
  - intros ->. reflexivity.
  - intros Hlt. split; [|apply fmt_d_digits; lia].
    unfold formatBytes. destruct (Z.eqb_spec b 0) as [->|Hne]; [reflexivity|].
    destruct (b <? unit) eqn:E; [reflexivity|]. unfold unit in E. lia.
  - intros Hge.
    destruct (unit_loop_formatBytes b loop_bound) as (d & Hd & Hrun & Hlast & Hall);
      [lia | unfold loop_bound; lia |].
    destruct (string_index_units (d - 1)) as (c & Hc & Hletter); [lia|].
    exists d, c. intros. repeat split; try lia; try assumption.
    + unfold formatBytes. destruct (Z.eqb_spec b 0) as [->|Hne]; [lia|].
      destruct (b <? unit) eqn:E; [unfold unit in E; lia|].
      rewrite Hrun, Hc. cbn [obind]. rewrite fmt_f1_quotient by (try assumption; lia).
      reflexivity.
    + apply fmt_d_digits. apply Z.div_pos; [|lia].
      apply round_half_even_nonneg; [|apply Z.pow_pos_nonneg; lia].
      pose proof (float64_value_nonneg b). lia.
    + apply digit_char_digit. apply Z.mod_pos_bound. lia.
    + intros Hsmall. apply float64_value_small. lia.
  - vm_compute. reflexivity.
  - vm_compute. reflexivity.
Qed.

Lemma formatBytes_rendering_witness :
  0 <= 1572864 <= max_int /\
  exists d letter,
    1 <= d <= 6 /\ unit_letters !! Z.to_nat (d - 1) = Some letter /\
    formatBytes 1572864
    = Ok (fixed1 (round_half_even (10 * float64_value 1572864) (1024 ^ d))
          +:+ " " +:+ String letter "B").
Proof.
  assert (H : 0 <= 1572864 <= max_int) by (unfold max_int; lia).
  split; [exact H|].
  destruct (proj1 (proj2 (proj2 (formatBytes_rendering 1572864 H))))
    as (d & letter & Hd & _ & _ & Hletter & Hfmt & _); [lia|].
  exists d, letter. repeat split; try lia; assumption.
Defined.

(** C4 as stated fails on the exact quotient: 4669332093657730253 is
    just above 4.05 times [1024^6], so its quotient rounds to "4.1", but
    [float64] holds 4669332093657730048, below 4.05, and the code prints
    "4.0 EB"; and 1048575, just below [1024^2], is printed as "1024.0 KB",
    not cut off to "1023.9 KB". *)
Lemma formatBytes_exact_quotient_fails :
  4669332093657730253 / 1024 ^ 6 < 1024 /\ 1024 <= 4669332093657730253 / 1024 ^ 5 /\
  formatBytes 4669332093657730253 = Ok "4.0 EB" /\
  exact_nearest_text 4669332093657730253 6 "E" = "4.1 EB" /\
  formatBytes 4669332093657730253 <> Ok (exact_nearest_text 4669332093657730253 6 "E") /\
  1048575 / 1024 ^ 1 < 1024 /\
  formatBytes 1048575 = Ok "1024.0 KB" /\
  exact_truncated_text 1048575 1 "K" = "1023.9 KB" /\
  formatBytes 1048575 <> Ok (exact_truncated_text 1048575 1 "K").
Proof.
  repeat split; try (vm_compute; reflexivity); try (vm_compute; discriminate);
    vm_compute; intros H; discriminate H.
Qed.

End FormatText.

(** ** More on [formatBytes] *)

(** ** More on formatBytes *)

(** The scaled branch of [formatBytes]: the divisions [d], the bounds they
    put on the input, the letter and the text. *)
Lemma formatBytes_scaled b :
  1024 <= b <= max_int ->
  exists d c,
    1 <= d <= 6 /\ 1024 ^ d <= b < 1024 ^ (d + 1) /\
    (forall fuel, (5 <= fuel)%nat ->
       unit_loop fuel (b ÷ unit) unit 0 = Some (1024 ^ d, d - 1)) /\
    unit_letters !! Z.to_nat (d - 1) = Some c /\
    formatBytes b
    = Ok (fixed1 (round_half_even (10 * float64_value b) (1024 ^ d))
          +:+ " " +:+ String c "B").
Proof.
  intros Hb.
  destruct (unit_loop_formatBytes b loop_bound) as (d & Hd & Hrun & Hlast & Hall);
    [lia | unfold loop_bound; lia |].
  destruct (string_index_units (d - 1)) as (c & Hc & Hletter); [lia|].
  assert (Hpd : 0 < 1024 ^ d) by (apply Z.pow_pos_nonneg; lia).
  assert (Hpd1 : 0 < 1024 ^ (d - 1)) by (apply Z.pow_pos_nonneg; lia).
  assert (Hlo : 1024 ^ d <= b).
  { specialize (Hall (d - 1) ltac:(lia)).
    replace d with (Z.succ (d - 1)) at 1 by lia. rewrite Z.pow_succ_r by lia.
    pose proof (Z.mul_div_le b (1024 ^ (d - 1)) Hpd1).
    assert (1024 ^ (d - 1) * 1024 <= 1024 ^ (d - 1) * (b / 1024 ^ (d - 1)))
      by (apply Z.mul_le_mono_nonneg_l; lia).
    lia. }
  assert (Hhi : b < 1024 ^ (d + 1)).
  { rewrite Z.pow_add_r by lia. change (1024 ^ 1) with 1024.
    pose proof (Z.mul_succ_div_gt b (1024 ^ d) Hpd).
    assert (1024 ^ d * Z.succ (b / 1024 ^ d) <= 1024 ^ d * 1024)
      by (apply Z.mul_le_mono_nonneg_l; lia).
    lia. }
  exists d, c. repeat split; try lia; try assumption.
  - intros fuel Hfuel.
    destruct (unit_loop_formatBytes b fuel) as (d' & Hd' & Hrun' & Hlast' & Hall'); [lia | lia |].
    assert (d' = d) as ->; [|assumption].
    destruct (Z.lt_trichotomy d' d) as [Hlt|[Heq|Hgt]]; [|assumption|].
    + specialize (Hall d'). lia.
    + specialize (Hall' d). lia.
  - unfold formatBytes. destruct (Z.eqb_spec b 0) as [->|Hne]; [lia|].
    destruct (b <? unit) eqn:E; [unfold unit in E; lia|].
    rewrite Hrun, Hc. cbn [obind]. rewrite fmt_f1_quotient by (try assumption; lia).
    reflexivity.
Qed.

Lemma pow1024_pow2 d : 0 <= d -> 1024 ^ d = 2 ^ (10 * d).
Proof. intros Hd. rewrite Z.pow_mul_r by lia. reflexivity. Qed.

(** The number of divisions is a tenth of the bit length. *)
Lemma divisions_log2 b d :
  0 <= d -> 1024 ^ d <= b < 1024 ^ (d + 1) -> Z.log2 b / 10 = d.
Proof.
  intros Hd [Hlo Hhi].
  assert (0 < 1024 ^ d) by (apply Z.pow_pos_nonneg; lia).
  assert (0 < b) by lia.
  rewrite pow1024_pow2 in Hlo by lia. rewrite pow1024_pow2 in Hhi by lia.
  apply Z.log2_le_pow2 in Hlo; [|lia]. apply Z.log2_lt_pow2 in Hhi; [|lia].
  symmetry. apply Z.div_unique with (Z.log2 b - 10 * d); lia.
Qed.

(** X1: the unit of [formatBytes] is fixed by the bit length of the size. *)
Theorem formatBytes_unit_by_bit_length (b : Z) :
  1024 <= b <= max_int ->
  exists number letter,
    (forall fuel, (5 <= fuel)%nat ->
       unit_loop fuel (b ÷ unit) unit 0
       = Some (1024 ^ (Z.log2 b / 10), Z.log2 b / 10 - 1)) /\
    unit_letters !! Z.to_nat (Z.log2 b / 10 - 1) = Some letter /\
    formatBytes b = Ok (number +:+ " " +:+ String letter "B").
Proof.
  intros Hb. destruct (formatBytes_scaled b Hb) as (d & c & Hd & Hr & Hloop & Hc & Hfmt).
  rewrite (divisions_log2 b d) by (try assumption; lia).
  eexists. exists c. repeat split; eassumption.
Qed.

Lemma formatBytes_unit_by_bit_length_witness :
  1024 <= 5000000 <= max_int /\
  exists number, formatBytes 5000000 = Ok (number +:+ " " +:+ String "M" "B").
Proof.
  assert (H : 1024 <= 5000000 <= max_int) by (unfold max_int; lia).
  split; [exact H|].
  destruct (formatBytes_unit_by_bit_length 5000000 H) as (number & letter & _ & Hl & Hf).
  exists number. injection Hl as <-. exact Hf.
Defined.

Lemma round_half_even_ge num den m : 0 < den -> m * den <= num -> m <= round_half_even num den.
Proof.
  intros Hd H. pose proof (round_half_even_bounds num den Hd).
  assert (m <= num / den) by (apply Z.div_le_lower_bound; lia). lia.
Qed.

Lemma round_half_even_le num den m : 0 < den -> num <= m * den -> round_half_even num den <= m.
Proof.
  intros Hd H. unfold round_half_even.
  pose proof (Z.div_mod num den ltac:(lia)) as Hdm.
  pose proof (Z.mod_pos_bound num den Hd) as Hr.
  assert (Hq : num / den <= m) by (apply Z.div_le_upper_bound; lia).
  destruct (Z.eq_dec (num / den) m) as [E|E].
  - assert (num mod den = 0) by nia.
    destruct (Z.compare_spec (2 * (num mod den)) den); try lia.
  - destruct (2 * (num mod den) ?= den); [destruct (Z.even (num / den))| |]; lia.
Qed.

(** Rounding to nearest is off by at most half a unit. *)
Lemma round_half_even_error num den :
  0 < den -> - den <= 2 * (round_half_even num den * den - num) <= den.
Proof.
  intros Hd. unfold round_half_even.
  pose proof (Z.div_mod num den ltac:(lia)) as Hdm.
  pose proof (Z.mod_pos_bound num den Hd) as Hr.
  destruct (Z.compare_spec (2 * (num mod den)) den);
    [destruct (Z.even (num / den))| |]; nia.
Qed.

(** The shift of [float64_value] on the sizes that [formatBytes] scales. *)
Lemma float64_shift_bound b d :
  0 <= d -> 1 <= b -> b < 1024 ^ (d + 1) -> b <= max_int ->
  0 <= Z.max 0 (Z.log2 b - 52) <= 10 /\ Z.max 0 (Z.log2 b - 52) <= 10 * d.
Proof.
  intros Hd Hb Hhi Hmax.
  assert (Z.log2 b < 10 * (d + 1)).
  { apply Z.log2_lt_pow2; [lia|]. rewrite <- pow1024_pow2 by lia. assumption. }
  assert (Z.log2 b < 63).
  { apply Z.log2_lt_pow2; [lia|]. unfold max_int in Hmax. lia. }
  lia.
Qed.

Lemma float64_value_between b d :
  1 <= d -> 1024 ^ d <= b < 1024 ^ (d + 1) -> b <= max_int ->
  1024 ^ d <= float64_value b <= 1024 ^ (d + 1).
Proof.
  intros Hd [Hlo Hhi] Hmax.
  assert (0 < 1024 ^ d) by (apply Z.pow_pos_nonneg; lia).
  destruct (float64_shift_bound b d) as [Hk Hkd]; try lia.
  unfold float64_value. set (k := Z.max 0 (Z.log2 b - 52)) in *.
  assert (HP : 0 < 2 ^ k) by (apply Z.pow_pos_nonneg; lia).
  assert (Hc : 1024 ^ d = 2 ^ (10 * d - k) * 2 ^ k).
  { rewrite pow1024_pow2 by lia. rewrite <- Z.pow_add_r by lia. f_equal. lia. }
  assert (Hc1 : 1024 ^ (d + 1) = (1024 * 2 ^ (10 * d - k)) * 2 ^ k).
  { rewrite Z.pow_add_r by lia. change (1024 ^ 1) with 1024. rewrite Hc. lia. }
  split.
  - rewrite Hc. apply Z.mul_le_mono_nonneg_r; [lia|].
    apply round_half_even_ge; [assumption | lia].
  - rewrite Hc1. apply Z.mul_le_mono_nonneg_r; [lia|].
    apply round_half_even_le; [assumption | lia].
Qed.

(** X2: the number that [formatBytes] prints before a unit lies between 1.0
    and 1024.0. *)
Theorem formatBytes_number_range (b : Z) :
  1024 <= b <= max_int ->
  exists tenths letter,
    10 <= tenths <= 10240 /\
    In letter unit_letters /\
    formatBytes b = Ok (fixed1 tenths +:+ " " +:+ String letter "B").
Proof.
  intros Hb. destruct (formatBytes_scaled b Hb) as (d & c & Hd & Hr & _ & Hc & Hfmt).
  assert (HD : 0 < 1024 ^ d) by (apply Z.pow_pos_nonneg; lia).
  destruct (float64_value_between b d) as [Vlo Vhi]; try lia.
  rewrite Z.pow_add_r in Vhi by lia. change (1024 ^ 1) with 1024 in Vhi.
  eexists. exists c. split; [|split; [|exact Hfmt]].
  - split.
    + apply round_half_even_ge; lia.
    + apply round_half_even_le; lia.
  - apply list_elem_of_In. eapply list_elem_of_lookup_2. exact Hc.
Qed.

Lemma formatBytes_number_range_witness :
  1024 <= 1048575 <= max_int /\
  exists tenths letter,
    10 <= tenths <= 10240 /\
    formatBytes 1048575 = Ok (fixed1 tenths +:+ " " +:+ String letter "B").
Proof.
  assert (H : 1024 <= 1048575 <= max_int) by (unfold max_int; lia).
  split; [exact H|].
  destruct (formatBytes_number_range 1048575 H) as (t & c & Ht & _ & Hf).
  exists t, c. split; assumption.
Defined.

(** X3: the number printed is within 0.05 of the exact quotient of the size
    by the unit for sizes below [2^53], and within 0.05 plus 512 over the
    unit for larger sizes, where the conversion to float64 rounds. *)
Theorem formatBytes_accuracy (b : Z) :
  1024 <= b <= max_int ->
  exists tenths letter,
    formatBytes b = Ok (fixed1 tenths +:+ " " +:+ String letter "B") /\
    2 * Z.abs (tenths * 1024 ^ (Z.log2 b / 10) - 10 * b) <= 1024 ^ (Z.log2 b / 10) + 10240 /\
    (b < 2 ^ 53 ->
     2 * Z.abs (tenths * 1024 ^ (Z.log2 b / 10) - 10 * b) <= 1024 ^ (Z.log2 b / 10)).
Proof.
  intros Hb. destruct (formatBytes_scaled b Hb) as (d & c & Hd & Hr & _ & Hc & Hfmt).
  rewrite (divisions_log2 b d) by (try assumption; lia).
  assert (HD : 0 < 1024 ^ d) by (apply Z.pow_pos_nonneg; lia).
  pose proof (round_half_even_error (10 * float64_value b) (1024 ^ d) HD) as Ht.
  eexists. exists c. split; [exact Hfmt|]. split.
  - destruct (float64_shift_bound b d) as [Hk _]; try lia.
    assert (HV : - 1024 <= 2 * (float64_value b - b) <= 1024).
    { unfold float64_value. set (k := Z.max 0 (Z.log2 b - 52)) in *.
      assert (HP : 0 < 2 ^ k) by (apply Z.pow_pos_nonneg; lia).
      assert (2 ^ k <= 2 ^ 10) by (apply Z.pow_le_mono_r; lia).
      change (2 ^ 10) with 1024 in *.
      pose proof (round_half_even_error b (2 ^ k) HP). lia. }
    lia.
  - intros Hsmall. rewrite (float64_value_small b) in Ht by lia.
    rewrite (float64_value_small b) by lia. lia.
Qed.

Lemma formatBytes_accuracy_witness :
  1024 <= 4669332093657730253 <= max_int /\
  exists tenths letter,
    formatBytes 4669332093657730253 = Ok (fixed1 tenths +:+ " " +:+ String letter "B") /\
    2 * Z.abs (tenths * 1024 ^ 6 - 10 * 4669332093657730253) <= 1024 ^ 6 + 10240.
Proof.
  assert (H : 1024 <= 4669332093657730253 <= max_int) by (unfold max_int; lia).
  split; [exact H|].
  destruct (formatBytes_accuracy 4669332093657730253 H) as (t & c & Hf & Hacc & _).
  exists t, c. split; [exact Hf | exact Hacc].
Defined.

(** X4: a negative size is printed as it is, with its sign, and is never
    scaled. *)
Theorem formatBytes_negative_unscaled (b : Z) :
  min_int <= b < 0 ->
  formatBytes b = Ok (String "-" (fmt_d (- b)) +:+ " B") /\
  all_digits (fmt_d (- b)) = true.
Proof.
  intros Hb. destruct b as [|p|p]; try lia. split.
  - reflexivity.
  - apply fmt_d_digits. lia.
Qed.

Lemma formatBytes_negative_unscaled_witness :
  min_int <= -2048 < 0 /\ formatBytes (-2048) = Ok "-2048 B".
Proof.
  assert (H : min_int <= -2048 < 0) by (unfold min_int; lia).
  split; [exact H|]. exact (proj1 (formatBytes_negative_unscaled (-2048) H)).
Defined.

(** ** More on [normalizeData] *)

(** ** More on normalizeData *)

(** X5: the j-th asset of the i-th normalised release copies the j-th asset
    of the i-th node and carries the text that [formatBytes] gives for its
    size. *)
Theorem normalizeData_assets_formatted (nodes : slice ReleaseNode.t) (i j : nat)
    (node : ReleaseNode.t) (asset : AssetNode.t) :
  wf_releases nodes ->
  elems nodes !! i = Some node ->
  elems (ReleaseAssets.Nodes (ReleaseNode.ReleaseAssets node)) !! j = Some asset ->
  exists out r assets a text,
    normalizeData nodes = Ok (Slice out) /\ out !! i = Some r /\
    NormalizedRelease.Assets r = Slice assets /\ assets !! j = Some a /\
    formatBytes (AssetNode.Size asset) = Ok text /\
    a = {| NormalizedAsset.ID := AssetNode.ID asset;
           NormalizedAsset.Name := AssetNode.Name asset;
           NormalizedAsset.Size := AssetNode.Size asset;
           NormalizedAsset.SizeFormatted := text;
           NormalizedAsset.ContentType := AssetNode.ContentType asset;
           NormalizedAsset.DownloadURL := AssetNode.DownloadURL asset |}.
Proof.
  intros Hwf Hi Hj.
  destruct (normalizeData_lookup nodes i node Hwf Hi) as (out & Hrun & _ & Hout).
  assert (Ha : wf_asset asset).
  { unfold wf_releases in Hwf. rewrite Forall_forall in Hwf.
    assert (Hn : wf_release node)
      by (apply Hwf, list_elem_of_lookup; eauto).
    unfold wf_release in Hn. rewrite Forall_forall in Hn.
    apply Hn, list_elem_of_lookup. eauto. }
  exists out, (normalized_release node (normalized_assets node)).
  eexists. eexists. exists (size_text (AssetNode.Size asset)).
  split; [exact Hrun|]. split; [exact Hout|]. split; [reflexivity|]. split.
  - rewrite list_lookup_fmap, Hj. reflexivity.
  - split; [apply formatBytes_size_text; exact Ha | reflexivity].
Qed.

Lemma normalizeData_assets_formatted_witness :
  wf_releases test_nodes /\
  exists out r assets a,
    normalizeData test_nodes = Ok (Slice out) /\ out !! 0%nat = Some r /\
    NormalizedRelease.Assets r = Slice assets /\ assets !! 0%nat = Some a /\
    NormalizedAsset.SizeFormatted a = "1.0 KB".
Proof.
  split; [exact wf_test_nodes|].
  destruct (normalizeData_assets_formatted test_nodes 0 0 _ test_asset wf_test_nodes
              eq_refl eq_refl) as (out & r & assets & a & text & H1 & H2 & H3 & H4 & H5 & H6).
  exists out, r, assets, a. repeat split; try assumption.
  rewrite H6. simpl. vm_compute in H5. injection H5 as <-. reflexivity.
Defined.

(** X6: normalising two sequences one after the other is normalising their
    concatenation. *)
Theorem normalizeData_app (xs ys : list ReleaseNode.t) :
  wf_releases (Slice xs) -> wf_releases (Slice ys) ->
  exists out_xs out_ys,
    normalizeData (Slice xs) = Ok (Slice out_xs) /\
    normalizeData (Slice ys) = Ok (Slice out_ys) /\
    normalizeData (Slice (xs ++ ys)) = Ok (Slice (out_xs ++ out_ys)).
Proof.
  intros Hx Hy.
  assert (Hxy : wf_releases (Slice (xs ++ ys))) by (apply Forall_app; split; assumption).
  eexists. eexists. split; [apply normalizeData_ok; assumption|].
  split; [apply normalizeData_ok; assumption|].
  rewrite (normalizeData_ok _ Hxy). simpl. rewrite fmap_app. reflexivity.
Qed.

Lemma normalizeData_app_witness :
  wf_releases test_nodes /\ wf_releases (Slice [truncated_node]) /\
  exists out, normalizeData (Slice (elems test_nodes ++ [truncated_node])) = Ok (Slice out)
              /\ length out = 3%nat.
Proof.
  split; [exact wf_test_nodes|]. split; [exact (wf_single _ wf_truncated_node)|].
  destruct (normalizeData_app (elems test_nodes) [truncated_node] wf_test_nodes
              (wf_single _ wf_truncated_node)) as (ox & oy & Hx & Hy & Hxy).
  exists (ox ++ oy)%list. split; [exact Hxy|].
  rewrite (normalizeData_ok (Slice (elems test_nodes)) wf_test_nodes) in Hx.
  injection Hx as <-.
  rewrite (normalizeData_ok _ (wf_single _ wf_truncated_node)) in Hy. injection Hy as <-.
  reflexivity.
Defined.

(** ** More on [parseArgs] *)

Lemma parseArgs_resolve env st :
  parseArgs env st
  = resolve_from (gale_flags (os_Args env) (flag_defaults (Getenv env "GITHUB_TOKEN"))) st.
Proof.
  unfold parseArgs, resolve_from, gale_flags, flag_defaults.
  generalize (Getenv env "GITHUB_TOKEN"). intros token.
  unfold Flag.NewFlagSet.
  do 12 define_flag.
  reflexivity.
Qed.

Ltac break_match :=
  match goal with
  | H : context [match ?x with _ => _ end] |- _ => destruct x eqn:?
  | H : context [if ?x then _ else _] |- _ => destruct x eqn:?
  end.

(** A step of the flag parser keeps the definitions; one that sees a flag
    consumes at least one argument. *)
Lemma parseOne_formal {St} (f f' : Flag.FlagSet St) r :
  Flag.parseOne f = (f', r) -> Flag.formal f' = Flag.formal f.
Proof.
  unfold Flag.parseOne. intros H.
  repeat (break_match; simpl in *; try discriminate);
    injection H as <- <-; try reflexivity; simplify_eq; reflexivity.
Qed.

Lemma parseOne_seen_shrinks {St} (f f' : Flag.FlagSet St) :
  Flag.parseOne f = (f', Flag.Seen) ->
  (length (Flag.args f') < length (Flag.args f))%nat.
Proof.
  unfold Flag.parseOne. intros H.
  repeat (break_match; simpl in *; try discriminate);
    injection H as <-; simplify_eq; simpl; lia.
Qed.

(** With [help] and [h] defined, the parser never asks for the usage text
    on its own. *)
Lemma parseOne_not_ErrHelp {St} (f f' : Flag.FlagSet St) e :
  is_Some (Flag.formal f !! "help") -> is_Some (Flag.formal f !! "h") ->
  Flag.parseOne f = (f', Flag.Failed e) -> e <> ErrHelp.
Proof.
  unfold Flag.parseOne. intros [v1 H1] [v2 H2] H.
  repeat (break_match; simpl in *; try discriminate);
    injection H as <- <-; try discriminate;
    match goal with
    | E : (String.eqb _ "help" || String.eqb _ "h") = true |- _ =>
        apply orb_prop in E as [E|E]; apply String.eqb_eq in E; subst; congruence
    end.
Qed.

(** Any bound of at least the number of arguments gives the same parse. *)
Lemma parse_loop_fuel {St} (usage : M ()%type) (n : nat) :
  forall (m : nat) (f : Flag.FlagSet St),
    (length (Flag.args f) <= n)%nat -> (length (Flag.args f) <= m)%nat ->
    Flag.parse_loop n usage f = Flag.parse_loop m usage f.
Proof.
  induction n as [|n IH]; intros m f Hn Hm; destruct m as [|m]; simpl;
    destruct (Flag.parseOne f) as [f' [| |e]] eqn:E; try reflexivity;
    pose proof (parseOne_seen_shrinks _ _ E); try lia.
  apply IH; lia.
Qed.

Lemma emit_two st e1 e2 (code : Z) :
  bind (emit e1) (fun _ => bind (emit e2) (fun _ => @os_Exit (Flag.FlagSet Config.t) code)) st
  = (after st [e1; e2], Exit code).
Proof.
  unfold bind, emit, os_Exit, after. simpl. rewrite <- app_assoc. reflexivity.
Qed.

(** The parse of a command line by the flags of [parseArgs]: it returns
    without printing, or prints the error and the usage text and exits
    with status 2. *)
Lemma parse_loop_outcomes (fuel : nat) : forall (f : Flag.FlagSet Config.t) st,
  (length (Flag.args f) <= fuel)%nat ->
  is_Some (Flag.formal f !! "help") -> is_Some (Flag.formal f !! "h") ->
  (exists f', Flag.parse_loop fuel showHelp f st = (st, Ok f')
              /\ Flag.formal f' = Flag.formal f) \/
  (exists e, e <> ErrHelp /\
             Flag.parse_loop fuel showHelp f st
             = (after st [PrintFlagError e; PrintHelp], Exit 2)).
Proof.
  induction fuel as [|fuel IH]; intros f st Hlen Hhelp Hh; simpl;
    destruct (Flag.parseOne f) as [f' [| |e]] eqn:E.
  - pose proof (parseOne_seen_shrinks _ _ E). lia.
  - left. exists f'. split; [reflexivity | exact (parseOne_formal _ _ _ E)].
  - right. exists e. pose proof (parseOne_not_ErrHelp _ _ _ Hhelp Hh E) as Hne.
    split; [assumption|]. destruct e; try contradiction; apply emit_two.
  - pose proof (parseOne_seen_shrinks _ _ E) as Hs.
    pose proof (parseOne_formal _ _ _ E) as Hf.
    destruct (IH f' st) as [(f'' & Hr & Hf'')|(e & Hne & Hr)];
      [lia | rewrite Hf; assumption | rewrite Hf; assumption | |].
    + left. exists f''. split; [assumption | congruence].
    + right. exists e. split; assumption.
  - left. exists f'. split; [reflexivity | exact (parseOne_formal _ _ _ E)].
  - right. exists e. pose proof (parseOne_not_ErrHelp _ _ _ Hhelp Hh E) as Hne.
    split; [assumption|]. destruct e; try contradiction; apply emit_two.
Qed.

Lemma gale_formal_help : is_Some (gale_formal !! "help") /\ is_Some (gale_formal !! "h").
Proof. split; vm_compute; eauto. Qed.

(** X7: whatever the command line, [parseArgs] either returns a
    configuration and prints nothing, or prints a flag error and the usage
    text and exits with status 2, and then so does [main]; it never panics
    and never exits with status 0. *)
Theorem parseArgs_returns_or_exits_2 (env : Env) (st : proc) :
  (exists cfg, parseArgs env st = (st, Ok cfg)) \/
  (exists e, e <> ErrHelp /\
             parseArgs env st = (after st [PrintFlagError e; PrintHelp], Exit 2) /\
             main env st = (after st [PrintFlagError e; PrintHelp], Exit 2)).
Proof.
  rewrite parseArgs_resolve. unfold resolve_from.
  destruct gale_formal_help as [Hhelp Hh].
  destruct (parse_loop_outcomes (length (os_Args env))
              (gale_flags (os_Args env) (flag_defaults (Getenv env "GITHUB_TOKEN"))) st)
    as [(f' & Hr & _)|(e & Hne & Hr)]; try assumption; try reflexivity.
  - left. eexists. unfold bind. simpl in Hr |- *. rewrite Hr. reflexivity.
  - right. exists e. split; [assumption|].
    assert (Hp : parseArgs env st = (after st [PrintFlagError e; PrintHelp], Exit 2)).
    { rewrite parseArgs_resolve. unfold resolve_from, bind. simpl in Hr |- *.
      rewrite Hr. reflexivity. }
    split.
    + rewrite parseArgs_resolve in Hp. exact Hp.
    + unfold main, run, bind. rewrite Hp. reflexivity.
Qed.

(** [resolve_from] after one step of the parser. *)
Lemma resolve_from_seen (f f' : Flag.FlagSet Config.t) st :
  Flag.parseOne f = (f', Flag.Seen) -> resolve_from f st = resolve_from f' st.
Proof.
  intros E. pose proof (parseOne_seen_shrinks _ _ E) as Hs.
  unfold resolve_from. destruct (length (Flag.args f)) as [|n] eqn:En; [lia|].
  simpl. rewrite E. rewrite (parse_loop_fuel showHelp n (length (Flag.args f')) f') by lia.
  reflexivity.
Qed.

Lemma resolve_from_done (f f' : Flag.FlagSet Config.t) st :
  Flag.parseOne f = (f', Flag.Done) ->
  resolve_from f st = (st, Ok (positionals (Flag.args f') (Flag.vars f'))).
Proof.
  intros E. unfold resolve_from.
  destruct (length (Flag.args f)); simpl; rewrite E; reflexivity.
Qed.

Lemma resolve_from_failed (f f' : Flag.FlagSet Config.t) e st :
  Flag.parseOne f = (f', Flag.Failed e) -> e <> ErrHelp ->
  resolve_from f st = (after st [PrintFlagError e; PrintHelp], Exit 2).
Proof.
  intros E Hne. unfold resolve_from.
  destruct (length (Flag.args f)); simpl; rewrite E;
    destruct e; try contradiction; unfold bind, emit, showHelp, os_Exit, after; simpl;
    rewrite <- app_assoc; reflexivity.
Qed.

Lemma step_output v rest cfg :
  Flag.parseOne (gale_flags ("-o" :: v :: rest) cfg) = (gale_flags rest (set_Output v cfg), Flag.Seen)
  /\ Flag.parseOne (gale_flags ("--output" :: v :: rest) cfg) = (gale_flags rest (set_Output v cfg), Flag.Seen).
Proof. split; vm_compute; reflexivity. Qed.

Lemma step_token v rest cfg :
  Flag.parseOne (gale_flags ("-t" :: v :: rest) cfg) = (gale_flags rest (set_Token v cfg), Flag.Seen)
  /\ Flag.parseOne (gale_flags ("--token" :: v :: rest) cfg) = (gale_flags rest (set_Token v cfg), Flag.Seen).
Proof. split; vm_compute; reflexivity. Qed.

Lemma step_switches rest cfg :
  Flag.parseOne (gale_flags ("-q" :: rest) cfg) = (gale_flags rest (set_Quiet true cfg), Flag.Seen)
  /\ Flag.parseOne (gale_flags ("--quiet" :: rest) cfg) = (gale_flags rest (set_Quiet true cfg), Flag.Seen)
  /\ Flag.parseOne (gale_flags ("-h" :: rest) cfg) = (gale_flags rest (set_Help true cfg), Flag.Seen)
  /\ Flag.parseOne (gale_flags ("--help" :: rest) cfg) = (gale_flags rest (set_Help true cfg), Flag.Seen)
  /\ Flag.parseOne (gale_flags ("-v" :: rest) cfg) = (gale_flags rest (set_Version true cfg), Flag.Seen)
  /\ Flag.parseOne (gale_flags ("--version" :: rest) cfg) = (gale_flags rest (set_Version true cfg), Flag.Seen).
Proof. repeat split; vm_compute; reflexivity. Qed.

Lemma step_terminator rest cfg :
  Flag.parseOne (gale_flags ("--" :: rest) cfg) = (gale_flags rest cfg, Flag.Done).
Proof. vm_compute. reflexivity. Qed.

Lemma step_count v rest cfg :
  Flag.parseOne (gale_flags ("-c" :: v :: rest) cfg)
  = match Strconv.ParseInt v with
    | inr z => (gale_flags rest (set_Count z cfg), Flag.Seen)
    | inl _ => (gale_flags rest cfg, Flag.Failed (InvalidValue v "c"))
    end
  /\ Flag.parseOne (gale_flags ("--count" :: v :: rest) cfg)
  = match Strconv.ParseInt v with
    | inr z => (gale_flags rest (set_Count z cfg), Flag.Seen)
    | inl _ => (gale_flags rest cfg, Flag.Failed (InvalidValue v "count"))
    end.
Proof.
  split.
  - transitivity
      (match Flag.Set_ (Flag.intValue set_Count) v cfg with
       | Some st => (gale_flags rest st, Flag.Seen)
       | None => (gale_flags rest cfg, Flag.Failed (InvalidValue v "c"))
       end); [reflexivity|].
    unfold Flag.Set_. destruct (Strconv.ParseInt v); reflexivity.
  - transitivity
      (match Flag.Set_ (Flag.intValue set_Count) v cfg with
       | Some st => (gale_flags rest st, Flag.Seen)
       | None => (gale_flags rest cfg, Flag.Failed (InvalidValue v "count"))
       end); [reflexivity|].
    unfold Flag.Set_. destruct (Strconv.ParseInt v); reflexivity.
Qed.

(** The configuration of [parseArgs] when parsing stops with [rest] left
    and the flag variables [cfg]. *)
Lemma positionals_default env :
  positionals [] (flag_defaults (Getenv env "GITHUB_TOKEN")) = default_config env.
Proof. reflexivity. Qed.

Lemma parseArgs_with_args env args st :
  parseArgs (with_args env args) st
  = resolve_from (gale_flags args (flag_defaults (Getenv env "GITHUB_TOKEN"))) st.
Proof. rewrite parseArgs_resolve. reflexivity. Qed.

(** X8: the long name of a flag, written with two dashes, and its short
    name, written with one, are interchangeable. *)
Theorem parseArgs_flag_aliases (env : Env) (st : proc) (v : string) (rest : list string) :
  parseArgs (with_args env ("--output" :: v :: rest)) st
  = parseArgs (with_args env ("-o" :: v :: rest)) st /\
  parseArgs (with_args env ("--token" :: v :: rest)) st
  = parseArgs (with_args env ("-t" :: v :: rest)) st /\
  parseArgs (with_args env ("--quiet" :: rest)) st
  = parseArgs (with_args env ("-q" :: rest)) st /\
  parseArgs (with_args env ("--help" :: rest)) st
  = parseArgs (with_args env ("-h" :: rest)) st /\
  parseArgs (with_args env ("--version" :: rest)) st
  = parseArgs (with_args env ("-v" :: rest)) st.
Proof.
  rewrite !parseArgs_with_args.
  destruct (step_output v rest (flag_defaults (Getenv env "GITHUB_TOKEN"))) as [O1 O2].
  destruct (step_token v rest (flag_defaults (Getenv env "GITHUB_TOKEN"))) as [T1 T2].
  destruct (step_switches rest (flag_defaults (Getenv env "GITHUB_TOKEN")))
    as (Q1 & Q2 & H1 & H2 & V1 & V2).
  rewrite (resolve_from_seen _ _ st O1), (resolve_from_seen _ _ st O2),
    (resolve_from_seen _ _ st T1), (resolve_from_seen _ _ st T2),
    (resolve_from_seen _ _ st Q1), (resolve_from_seen _ _ st Q2),
    (resolve_from_seen _ _ st H1), (resolve_from_seen _ _ st H2),
    (resolve_from_seen _ _ st V1), (resolve_from_seen _ _ st V2).
  repeat split.
Qed.

Lemma main_parse_exit env st st' code :
  parseArgs env st = (st', Exit code) -> main env st = (st', Exit code).
Proof. intros H. unfold main, run, bind. rewrite H. reflexivity. Qed.

(** X9: when a value flag is given twice, the later value replaces the
    earlier. *)
Theorem parseArgs_last_value_wins (env : Env) (st : proc) (v w : string) (rest : list string) :
  parseArgs (with_args env ("-o" :: v :: "-o" :: w :: rest)) st
  = parseArgs (with_args env ("-o" :: w :: rest)) st /\
  parseArgs (with_args env ("-t" :: v :: "-t" :: w :: rest)) st
  = parseArgs (with_args env ("-t" :: w :: rest)) st.
Proof.
  rewrite !parseArgs_with_args. set (d := flag_defaults (Getenv env "GITHUB_TOKEN")).
  split.
  - rewrite (resolve_from_seen _ _ st (proj1 (step_output v ("-o" :: w :: rest) d))).
    rewrite (resolve_from_seen _ _ st (proj1 (step_output w rest (set_Output v d)))).
    rewrite (resolve_from_seen _ _ st (proj1 (step_output w rest d))).
    reflexivity.
  - rewrite (resolve_from_seen _ _ st (proj1 (step_token v ("-t" :: w :: rest) d))).
    rewrite (resolve_from_seen _ _ st (proj1 (step_token w rest (set_Token v d)))).
    rewrite (resolve_from_seen _ _ st (proj1 (step_token w rest d))).
    reflexivity.
Qed.

(** X10: after the terminator [--] every argument is a positional, also one
    that starts with a dash. *)
Theorem parseArgs_terminator (env : Env) (st : proc) (rest : list string) :
  parseArgs (with_args env ("--" :: rest)) st
  = (st, Ok (match rest with
             | [] => default_config env
             | [a0] => set_Owner a0 (default_config env)
             | a0 :: a1 :: _ => set_Repo a1 (set_Owner a0 (default_config env))
             end)).
Proof.
  rewrite parseArgs_with_args.
  rewrite (resolve_from_done _ _ st (step_terminator rest _)).
  destruct rest as [|a0 [|a1 rest]]; reflexivity.
Qed.



Lemma existsb_eqb_In a l : existsb (String.eqb a) l = true -> In a l.
Proof.
  intros H. apply existsb_exists in H as (x & Hin & E).
  apply String.eqb_eq in E. subst x. exact Hin.
Qed.

(** Parsing goes through a prefix of documented flags. *)
Lemma resolve_from_flags_only (n : nat) : forall pre tail cfg st,
  (length pre <= n)%nat -> flags_only pre = true ->
  exists cfg', resolve_from (gale_flags (pre ++ tail) cfg) st
               = resolve_from (gale_flags tail cfg') st.
Proof.
  induction n as [|n IH]; intros pre tail cfg st Hlen Hpre.
  { destruct pre; [exists cfg; reflexivity | simpl in Hlen; lia]. }
  destruct pre as [|a rest]; [exists cfg; reflexivity|].
  simpl in Hlen. cbn [flags_only] in Hpre.
  destruct (is_switch a) eqn:Hsw.
  - apply existsb_eqb_In in Hsw.
    destruct (step_switches (rest ++ tail) cfg) as (S1 & S2 & S3 & S4 & S5 & S6).
    simpl in Hsw.
    destruct Hsw as [<-|[<-|[<-|[<-|[<-|[<-|[]]]]]]]; cbn [app];
      [rewrite (resolve_from_seen _ _ st S1)|rewrite (resolve_from_seen _ _ st S2)
      |rewrite (resolve_from_seen _ _ st S3)|rewrite (resolve_from_seen _ _ st S4)
      |rewrite (resolve_from_seen _ _ st S5)|rewrite (resolve_from_seen _ _ st S6)];
      apply IH; solve [lia | assumption].
  - destruct rest as [|v rest']; [discriminate|].
    apply andb_prop in Hpre as [Hflag Hrest]. simpl in Hlen. cbn [app].
    destruct (is_text_flag a) eqn:Htext.
    + apply existsb_eqb_In in Htext. simpl in Htext.
      destruct (step_output v (rest' ++ tail) cfg) as (O1 & O2).
      destruct (step_token v (rest' ++ tail) cfg) as (T1 & T2).
      destruct Htext as [<-|[<-|[<-|[<-|[]]]]];
        [rewrite (resolve_from_seen _ _ st O1)|rewrite (resolve_from_seen _ _ st O2)
        |rewrite (resolve_from_seen _ _ st T1)|rewrite (resolve_from_seen _ _ st T2)];
        apply IH; solve [lia | assumption].
    + cbn [orb] in Hflag. apply andb_prop in Hflag as [Hcount Hint].
      apply existsb_eqb_In in Hcount. simpl in Hcount.
      unfold is_int_literal in Hint.
      destruct (step_count v (rest' ++ tail) cfg) as (C1 & C2).
      destruct (Strconv.ParseInt v) as [e|z]; [discriminate|].
      destruct Hcount as [<-|[<-|[]]];
        [rewrite (resolve_from_seen _ _ st C1)|rewrite (resolve_from_seen _ _ st C2)];
        apply IH; solve [lia | assumption].
Qed.

Lemma parseArgs_after_flags env pre tail st :
  flags_only pre = true ->
  exists cfg, parseArgs (with_args env (pre ++ tail)) st
              = resolve_from (gale_flags tail cfg) st.
Proof.
  intros H. rewrite parseArgs_with_args.
  exact (resolve_from_flags_only (length pre) pre tail _ st (le_n _) H).
Qed.

(** X12: when documented flags with their values are followed by
    [--count] or [-c] with a value that is not an integer literal, the
    program prints the error and the usage text and stops with status 2,
    before any request, whatever follows. *)
Theorem main_rejects_bad_count (env : Env) (st : proc) (pre : list string) (v : string)
    (rest : list string) (err : Strconv.num_error) :
  flags_only pre = true ->
  Strconv.ParseInt v = inl err ->
  main (with_args env (pre ++ "--count" :: v :: rest)) st
  = (after st [PrintFlagError (InvalidValue v "count"); PrintHelp], Exit 2) /\
  main (with_args env (pre ++ "-c" :: v :: rest)) st
  = (after st [PrintFlagError (InvalidValue v "c"); PrintHelp], Exit 2).
Proof.
  intros Hpre Hv. split; apply main_parse_exit.
  - destruct (parseArgs_after_flags env pre ("--count" :: v :: rest) st Hpre) as (cfg & ->).
    destruct (step_count v rest cfg) as [_ C]. rewrite Hv in C.
    exact (resolve_from_failed _ _ _ st C ltac:(discriminate)).
  - destruct (parseArgs_after_flags env pre ("-c" :: v :: rest) st Hpre) as (cfg & ->).
    destruct (step_count v rest cfg) as [C _]. rewrite Hv in C.
    exact (resolve_from_failed _ _ _ st C ltac:(discriminate)).
Qed.

Lemma main_rejects_bad_count_witness :
  main (with_args (sample_env []) ["-q"; "-o"; "out.json"; "--count"; "ten"; "cli"; "gh"])
    sample_proc
  = (mkProc [PrintFlagError (InvalidValue "ten" "count"); PrintHelp] ∅, Exit 2).
Proof.
  refine (proj1 (main_rejects_bad_count (sample_env []) sample_proc ["-q"; "-o"; "out.json"]
                   "ten" ["cli"; "gh"] Strconv.ErrSyntax _ _)).
  - reflexivity.
  - reflexivity.
Defined.

Lemma substring_full s : String.substring 0 (String.length s) s = s.
Proof. induction s as [|c s IH]; simpl; [reflexivity | rewrite IH; reflexivity]. Qed.

Lemma split_equals_plain body :
  no_equals body = true -> Flag.split_equals false body = (body, None).
Proof.
  induction body as [|c body IH]; simpl; intros H; [reflexivity|].
  apply andb_prop in H as [Hc Hb]. apply negb_true_iff in Hc.
  rewrite Hc. simpl. rewrite (IH Hb). reflexivity.
Qed.

Lemma parseOne_undefined {St} (formal : gmap string (Flag.Value St)) name rest vars :
  plain_name name = true -> formal !! name = None ->
  name <> "help" -> name <> "h" ->
  Flag.parseOne (Flag.mkFlagSet formal (("-" +:+ name) :: rest) vars)
  = (Flag.mkFlagSet formal rest vars, Flag.Failed (NotDefined name)).
Proof.
  intros Hplain Hnone Hhelp Hh. destruct name as [|c body]; [discriminate|].
  simpl in Hplain. apply andb_prop in Hplain as [Hdash Heq].
  apply andb_prop in Heq as [Hc Hbody].
  apply negb_true_iff in Hdash, Hc.
  change ("-" +:+ String c body) with (String "-" (String c body)).
  set (s := String "-" (String c body)).
  assert (H1 : (Z.of_nat (String.length s) <? 2) || negb (Flag.starts_with 45 s) = false).
  { unfold s. cbn [String.length]. apply orb_false_iff. split; [apply Z.ltb_ge; lia | reflexivity]. }
  assert (H2 : Flag.starts_with 45 (String.substring 1 1 s) = false) by exact Hdash.
  assert (H3 : String.substring 1 (String.length s - 1) s = String c body).
  { unfold s. cbn [String.length Nat.sub String.substring].
    rewrite substring_full. reflexivity. }
  unfold Flag.parseOne. cbn [Flag.args Flag.formal Flag.vars].
  rewrite H1, H2. cbv beta zeta iota. cbn [andb]. rewrite H3.
  cbn [String.length Flag.starts_with]. rewrite Hdash, Hc.
  replace (Z.of_nat (S (String.length body)) =? 0) with false by (symmetry; apply Z.eqb_neq; lia).
  cbn [orb Flag.split_equals negb andb]. rewrite (split_equals_plain _ Hbody).
  rewrite Hnone.
  destruct (String.eqb_spec (String c body) "help") as [E|_]; [contradiction|].
  destruct (String.eqb_spec (String c body) "h") as [E|_]; [contradiction|].
  reflexivity.
Qed.

Lemma parseOne_undefined2 {St} (formal : gmap string (Flag.Value St)) name rest vars :
  plain_name name = true -> formal !! name = None ->
  name <> "help" -> name <> "h" ->
  Flag.parseOne (Flag.mkFlagSet formal (("--" +:+ name) :: rest) vars)
  = (Flag.mkFlagSet formal rest vars, Flag.Failed (NotDefined name)).
Proof.
  intros Hplain Hnone Hhelp Hh. destruct name as [|c body]; [discriminate|].
  simpl in Hplain. apply andb_prop in Hplain as [Hdash Heq].
  apply andb_prop in Heq as [Hc Hbody].
  apply negb_true_iff in Hdash, Hc.
  change ("--" +:+ String c body) with (String "-" (String "-" (String c body))).
  set (s := String "-" (String "-" (String c body))).
  assert (H1 : (Z.of_nat (String.length s) <? 2) || negb (Flag.starts_with 45 s) = false).
  { unfold s. cbn [String.length]. apply orb_false_iff. split; [apply Z.ltb_ge; lia | reflexivity]. }
  assert (H2 : Flag.starts_with 45 (String.substring 1 1 s) = true) by reflexivity.
  assert (H2' : (Z.of_nat (String.length s) =? 2) = false).
  { unfold s. cbn [String.length]. apply Z.eqb_neq. lia. }
  assert (H3 : String.substring 2 (String.length s - 2) s = String c body).
  { unfold s. cbn [String.length Nat.sub String.substring].
    rewrite substring_full. reflexivity. }
  unfold Flag.parseOne. cbn [Flag.args Flag.formal Flag.vars].
  rewrite H1, H2, H2'. cbv beta zeta iota. cbn [andb]. rewrite H3.
  cbn [String.length Flag.starts_with]. rewrite Hdash, Hc.
  replace (Z.of_nat (S (String.length body)) =? 0) with false by (symmetry; apply Z.eqb_neq; lia).
  cbn [orb Flag.split_equals negb andb]. rewrite (split_equals_plain _ Hbody).
  rewrite Hnone.
  destruct (String.eqb_spec (String c body) "help") as [E|_]; [contradiction|].
  destruct (String.eqb_spec (String c body) "h") as [E|_]; [contradiction|].
  reflexivity.
Qed.

Lemma gale_formal_undefined name :
  ~ In name gale_flag_names -> gale_formal !! name = None.
Proof.
  intros H. unfold gale_formal. apply not_elem_of_list_to_map_1.
  intros Hin. apply H. apply list_elem_of_In. exact Hin.
Qed.

(** X13: an option that the program does not define stops it with status 2,
    after the error and the usage text; nothing is requested or written. *)
Theorem main_rejects_undefined_flag (env : Env) (st : proc) (name : string)
    (rest : list string) :
  plain_name name = true -> ~ In name gale_flag_names ->
  main (with_args env (("-" +:+ name) :: rest)) st
  = (after st [PrintFlagError (NotDefined name); PrintHelp], Exit 2) /\
  main (with_args env (("--" +:+ name) :: rest)) st
  = (after st [PrintFlagError (NotDefined name); PrintHelp], Exit 2).
Proof.
  intros Hplain Hnot.
  pose proof (gale_formal_undefined name Hnot) as Hnone.
  assert (Hhelp : name <> "help") by (intros ->; apply Hnot; simpl; tauto).
  assert (Hh : name <> "h") by (intros ->; apply Hnot; simpl; tauto).
  split; apply main_parse_exit; rewrite parseArgs_with_args.
  - exact (resolve_from_failed _ _ _ st
             (parseOne_undefined gale_formal name rest _ Hplain Hnone Hhelp Hh)
             ltac:(discriminate)).
  - exact (resolve_from_failed _ _ _ st
             (parseOne_undefined2 gale_formal name rest _ Hplain Hnone Hhelp Hh)
             ltac:(discriminate)).
Qed.

Lemma main_rejects_undefined_flag_witness :
  plain_name "verbose" = true /\ ~ In "verbose" gale_flag_names /\
  main (with_args (sample_env []) ["--verbose"; "cli"; "gh"]) sample_proc
  = (mkProc [PrintFlagError (NotDefined "verbose"); PrintHelp] ∅, Exit 2).
Proof.
  assert (H1 : plain_name "verbose" = true) by reflexivity.
  assert (H2 : ~ In "verbose" gale_flag_names).
  { simpl. intros H. repeat (destruct H as [H|H]; [discriminate H|]). exact H. }
  split; [exact H1|]. split; [exact H2|].
  exact (proj2 (main_rejects_undefined_flag (sample_env []) sample_proc "verbose"
                  ["cli"; "gh"] H1 H2)).
Defined.

(** X14: when documented flags with their values are followed by a last
    argument that is a flag taking a value (count, c, output, o, token or
    t, with one dash or two), the program prints that the flag needs an
    argument and the usage text and stops with status 2. *)
Theorem main_rejects_missing_value (env : Env) (st : proc) (pre : list string)
    (name : string) :
  flags_only pre = true ->
  In name ["count"; "c"; "output"; "o"; "token"; "t"] ->
  main (with_args env (pre ++ ["-" +:+ name])) st
  = (after st [PrintFlagError (NeedsArgument name); PrintHelp], Exit 2) /\
  main (with_args env (pre ++ ["--" +:+ name])) st
  = (after st [PrintFlagError (NeedsArgument name); PrintHelp], Exit 2).
Proof.
  intros Hpre Hin. split; apply main_parse_exit.
  - destruct (parseArgs_after_flags env pre ["-" +:+ name] st Hpre) as (cfg & ->).
    simpl in Hin.
    repeat (destruct Hin as [<-|Hin];
            [eapply resolve_from_failed; [reflexivity | discriminate]|]).
    destruct Hin.
  - destruct (parseArgs_after_flags env pre ["--" +:+ name] st Hpre) as (cfg & ->).
    simpl in Hin.
    repeat (destruct Hin as [<-|Hin];
            [eapply resolve_from_failed; [reflexivity | discriminate]|]).
    destruct Hin.
Qed.

Lemma main_rejects_missing_value_witness :
  main (with_args (sample_env []) ["-q"; "--output"]) sample_proc
  = (mkProc [PrintFlagError (NeedsArgument "output"); PrintHelp] ∅, Exit 2).
Proof.
  refine (proj2 (main_rejects_missing_value (sample_env []) sample_proc ["-q"] "output" _ _)).
  - reflexivity.
  - simpl. tauto.
Defined.

(** ** The run and its failures *)

(** The run up to the end of the fetch when the request cannot be sent. *)
Lemma run_fetch_transport env st st' cfg msg :
  parseArgs env st = (st', Ok cfg) ->
  Config.Help cfg = false -> Config.Version cfg = false ->
  http_Do env (Config.Owner cfg) (Config.Repo cfg) (Config.Count cfg) (Config.Token cfg)
  = TransportError msg ->
  run env st
  = run_result env cfg (inl ("failed to send request to GitHub API: " +:+ msg))
      (after st (fetch_events cfg None)).
Proof.
  intros Hparse Hhelp Hversion Hhttp.
  pose proof (parseArgs_silent env _ _ _ Hparse) as ->.
  unfold run. rewrite (bind_ok_eq _ _ _ _ _ Hparse). rewrite Hhelp, Hversion.
  unfold fetchGraphQL, fetch_events. rewrite Hhttp.
  destruct (Config.Quiet cfg), (String.eqb (Config.Token cfg) "");
    unfold bind, when, showBanner, emit, ret, after; simpl;
    rewrite <- ?app_assoc; reflexivity.
Qed.

(** X15: when the request cannot be sent, the run stops with the transport
    error, writes nothing and the process exits with status 1. *)
Theorem transport_failure_aborts env st st' cfg msg :
  parseArgs env st = (st', Ok cfg) ->
  Config.Help cfg = false -> Config.Version cfg = false ->
  http_Do env (Config.Owner cfg) (Config.Repo cfg) (Config.Count cfg) (Config.Token cfg)
  = TransportError msg ->
  let err := "failed to send request to GitHub API: " +:+ msg in
  let st_run := after st (fetch_events cfg None) in
  run env st = (st_run, Ok (Some err)) /\
  files st_run = files st /\
  main env st = (after st_run [PrintError err], Exit 1).
Proof.
  intros Hparse Hhelp Hversion Hhttp err st_run.
  assert (Hrun : run env st = (st_run, Ok (Some err)))
    by (rewrite (run_fetch_transport env st st' cfg msg) by assumption; reflexivity).
  repeat split; [exact Hrun | exact (main_error env st st_run err Hrun)].
Qed.

(** X16: when the body of a response below 400 does not decode, the run
    stops with the decoding error, writes nothing and the process exits
    with status 1. *)
Theorem decode_failure_aborts env st st' cfg status body close_err msg :
  parseArgs env st = (st', Ok cfg) ->
  Config.Help cfg = false -> Config.Version cfg = false ->
  http_Do env (Config.Owner cfg) (Config.Repo cfg) (Config.Count cfg) (Config.Token cfg)
  = Response status body close_err ->
  status < 400 ->
  json_Decode env body = inl msg ->
  let err := "failed to decode GitHub API response: " +:+ msg in
  let st_run := after st (fetch_events cfg close_err) in
  run env st = (st_run, Ok (Some err)) /\
  files st_run = files st /\
  main env st = (after st_run [PrintError err], Exit 1).
Proof.
  intros Hparse Hhelp Hversion Hhttp Hstatus Hdecode err st_run.
  assert (Hrun : run env st = (st_run, Ok (Some err))).
  { rewrite (run_fetch env st st' cfg status body close_err) by assumption.
    destruct (status >=? 400) eqn:E; [lia|]. rewrite Hdecode. reflexivity. }
  repeat split; [exact Hrun | exact (main_error env st st_run err Hrun)].
Qed.

(** X17: a response without errors and without a repository (no data, or
    data with a nil repository) stops the run with "repository not found
    or access denied"; nothing is normalised or written. *)
Theorem missing_repository_aborts env st st' cfg status body close_err result :
  parseArgs env st = (st', Ok cfg) ->
  Config.Help cfg = false -> Config.Version cfg = false ->
  http_Do env (Config.Owner cfg) (Config.Repo cfg) (Config.Count cfg) (Config.Token cfg)
  = Response status body close_err ->
  status < 400 ->
  json_Decode env body = inr result ->
  len (GraphQLResponse.Errors result) = 0%nat ->
  repository_of result = None ->
  let err := "repository not found or access denied" in
  let st_run := after st (fetch_events cfg close_err) in
  run env st = (st_run, Ok (Some err)) /\
  files st_run = files st /\
  main env st = (after st_run [PrintError err], Exit 1).
Proof.
  intros Hparse Hhelp Hversion Hhttp Hstatus Hdecode Herrors Hrepo err st_run.
  assert (Hrun : run env st = (st_run, Ok (Some err))).
  { rewrite (run_fetch env st st' cfg status body close_err) by assumption.
    destruct (status >=? 400) eqn:E; [lia|]. rewrite Hdecode.
    unfold run_result. rewrite Herrors. unfold repository_of in Hrepo.
    cbn [Nat.ltb Nat.leb]. rewrite Hrepo. reflexivity. }
  repeat split; [exact Hrun | exact (main_error env st st_run err Hrun)].
Qed.

(** X18: with the version switch and without the help switch the run prints
    the version line only: no banner, no request, no file, status 0. *)
Theorem version_prints_only_version env st st' cfg :
  parseArgs env st = (st', Ok cfg) ->
  Config.Help cfg = false -> Config.Version cfg = true ->
  run env st = (after st [PrintVersion], Ok None) /\
  main env st = (after st [PrintVersion], Ok tt) /\
  exit_status (snd (main env st)) = Some 0.
Proof.
  intros Hparse Hhelp Hversion.
  pose proof (parseArgs_silent env _ _ _ Hparse) as ->.
  assert (Hrun : run env st = (after st [PrintVersion], Ok None)).
  { unfold run. rewrite (bind_ok_eq _ _ _ _ _ Hparse). rewrite Hhelp, Hversion.
    reflexivity. }
  rewrite (main_success _ _ _ Hrun). repeat split. exact Hrun.
Qed.

Lemma normalizeData_normalized nodes :
  wf_releases nodes -> normalizeData nodes = Ok (normalized nodes).
Proof. exact (normalizeData_ok nodes). Qed.

Lemma len_normalized nodes : len (normalized nodes) = length (elems nodes).
Proof. unfold len, normalized. simpl. apply length_fmap. Qed.

(** [run_result] on a response with a repository, up to the resolution of
    the output path. *)
Lemma run_result_repository env cfg result repo st :
  len (GraphQLResponse.Errors result) = 0%nat ->
  repository_of result = Some repo ->
  wf_releases (Releases.Nodes (Repository.Releases repo)) ->
  run_result env cfg (inr result) st
  = match filepath_Abs env (Config.Output cfg) with
    | inl err =>
        (after st (info_events cfg repo),
         Ok (Some ("could not resolve path " +:+ strconv_Quote env (Config.Output cfg)
                   +:+ ": " +:+ err)))
    | inr outPath =>
        match json_MarshalIndent env (output_document env cfg repo) with
        | inl err =>
            (after st (info_events cfg repo),
             Ok (Some ("failed to marshal output JSON: " +:+ err)))
        | inr file =>
            match os_WriteFile env (files st) outPath file with
            | (fs, Some err) =>
                (mkProc (trace st ++ info_events cfg repo) fs,
                 Ok (Some ("failed to write to file " +:+ Config.Output cfg +:+ ": " +:+ err)))
            | (fs, None) =>
                (mkProc (trace st ++ info_events cfg repo ++ success_events cfg repo outPath) fs,
                 Ok None)
            end
        end
    end.
Proof.
  intros Herrors Hrepo Hwf. destruct st as [tr fs0].
  unfold run_result. rewrite Herrors. cbn [Nat.ltb Nat.leb].
  unfold repository_of in Hrepo. rewrite Hrepo.
  rewrite (normalizeData_normalized _ Hwf). rewrite bind_lift_ok.
  rewrite !len_normalized. unfold info_events, success_events, output_document.
  destruct (Config.Quiet cfg);
    destruct (filepath_Abs env (Config.Output cfg)) as [e1|outPath];
    try (destruct (json_MarshalIndent env _) as [e2|file]);
    try (destruct (os_WriteFile env fs0 outPath file) as [fs [e3|]] eqn:Ew);
    unfold normalized; simpl elems;
    try (destruct (elems (Releases.Nodes (Repository.Releases repo))) as [|latest l]);
    unfold bind, when, emit, ret, after; simpl; rewrite ?Ew; simpl;
    rewrite <- ?app_assoc; try rewrite app_nil_r; reflexivity.
Qed.

(** The run that reaches the repository data, up to the output. *)
Lemma run_delivers env st cfg close_err repo :
  delivers env st cfg close_err repo ->
  exists result,
    len (GraphQLResponse.Errors result) = 0%nat /\
    repository_of result = Some repo /\
    run env st = run_result env cfg (inr result) (after st (fetch_events cfg close_err)).
Proof.
  intros (Hparse & Hhelp & Hversion & status & body & result & Hhttp & Hstatus & Hdecode
          & Herrors & Hrepo & Hwf).
  exists result. split; [assumption|]. split; [assumption|].
  rewrite (run_fetch env st st cfg status body close_err) by assumption.
  destruct (status >=? 400) eqn:E; [lia|]. rewrite Hdecode. reflexivity.
Qed.

Lemma delivers_wf env st cfg close_err repo :
  delivers env st cfg close_err repo ->
  wf_releases (Releases.Nodes (Repository.Releases repo)).
Proof. intros (_ & _ & _ & status & body & result & _ & _ & _ & _ & _ & Hwf). exact Hwf. Qed.

(** X19: a run that reaches the repository data and can resolve the path,
    encode the document and write the file, writes exactly the encoding
    of the assembled document to the resolved path, prints the success
    line (also when quiet) and ends with status 0. *)
Theorem run_writes_document env st cfg close_err repo outPath file fs :
  delivers env st cfg close_err repo ->
  filepath_Abs env (Config.Output cfg) = inr outPath ->
  json_MarshalIndent env (output_document env cfg repo) = inr file ->
  os_WriteFile env (files st) outPath file = (fs, None) ->
  let st_end :=
    mkProc (trace st ++ fetch_events cfg close_err ++ info_events cfg repo
            ++ success_events cfg repo outPath) fs in
  run env st = (st_end, Ok None) /\
  main env st = (st_end, Ok tt) /\
  exit_status (snd (main env st)) = Some 0.
Proof.
  intros Hd Habs Hmarshal Hwrite st_end.
  destruct (run_delivers _ _ _ _ _ Hd) as (result & Herrors & Hrepo & Hrun).
  assert (Hrun' : run env st = (st_end, Ok None)).
  { rewrite Hrun, (run_result_repository env cfg result repo _ Herrors Hrepo (delivers_wf _ _ _ _ _ Hd)).
    rewrite Habs, Hmarshal. cbn [files after]. rewrite Hwrite.
    unfold st_end. cbn [trace after]. rewrite <- !app_assoc. reflexivity. }
  rewrite (main_success _ _ _ Hrun'). repeat split. exact Hrun'.
Qed.

(** X20: when the output path cannot be resolved the run stops with that
    error and no file is written. *)
Theorem path_failure_writes_nothing env st cfg close_err repo msg :
  delivers env st cfg close_err repo ->
  filepath_Abs env (Config.Output cfg) = inl msg ->
  let err := "could not resolve path " +:+ strconv_Quote env (Config.Output cfg)
             +:+ ": " +:+ msg in
  let st_run := after st (fetch_events cfg close_err ++ info_events cfg repo) in
  run env st = (st_run, Ok (Some err)) /\
  files st_run = files st /\
  main env st = (after st_run [PrintError err], Exit 1).
Proof.
  intros Hd Habs err st_run.
  destruct (run_delivers _ _ _ _ _ Hd) as (result & Herrors & Hrepo & Hrun).
  assert (Hrun' : run env st = (st_run, Ok (Some err))).
  { rewrite Hrun, (run_result_repository env cfg result repo _ Herrors Hrepo (delivers_wf _ _ _ _ _ Hd)).
    rewrite Habs. rewrite after_after. reflexivity. }
  repeat split; [exact Hrun' | exact (main_error env st st_run err Hrun')].
Qed.

(** X21: when the document cannot be encoded the run stops with that error
    before the file is opened: no file is created or truncated. *)
Theorem encoding_failure_writes_nothing env st cfg close_err repo outPath msg :
  delivers env st cfg close_err repo ->
  filepath_Abs env (Config.Output cfg) = inr outPath ->
  json_MarshalIndent env (output_document env cfg repo) = inl msg ->
  let err := "failed to marshal output JSON: " +:+ msg in
  let st_run := after st (fetch_events cfg close_err ++ info_events cfg repo) in
  run env st = (st_run, Ok (Some err)) /\
  files st_run = files st /\
  main env st = (after st_run [PrintError err], Exit 1).
Proof.
  intros Hd Habs Hmarshal err st_run.
  destruct (run_delivers _ _ _ _ _ Hd) as (result & Herrors & Hrepo & Hrun).
  assert (Hrun' : run env st = (st_run, Ok (Some err))).
  { rewrite Hrun, (run_result_repository env cfg result repo _ Herrors Hrepo (delivers_wf _ _ _ _ _ Hd)).
    rewrite Habs, Hmarshal. rewrite after_after. reflexivity. }
  repeat split; [exact Hrun' | exact (main_error env st st_run err Hrun')].
Qed.

(** X22: when writing the file fails the run reports it under the name given
    on the command line, prints no success line and the process exits with
    status 1; the files are as the failed write left them. *)
Theorem write_failure_reported env st cfg close_err repo outPath file fs msg :
  delivers env st cfg close_err repo ->
  filepath_Abs env (Config.Output cfg) = inr outPath ->
  json_MarshalIndent env (output_document env cfg repo) = inr file ->
  os_WriteFile env (files st) outPath file = (fs, Some msg) ->
  let err := "failed to write to file " +:+ Config.Output cfg +:+ ": " +:+ msg in
  let st_run := mkProc (trace st ++ fetch_events cfg close_err ++ info_events cfg repo) fs in
  run env st = (st_run, Ok (Some err)) /\
  main env st = (after st_run [PrintError err], Exit 1).
Proof.
  intros Hd Habs Hmarshal Hwrite err st_run.
  destruct (run_delivers _ _ _ _ _ Hd) as (result & Herrors & Hrepo & Hrun).
  assert (Hrun' : run env st = (st_run, Ok (Some err))).
  { rewrite Hrun, (run_result_repository env cfg result repo _ Herrors Hrepo (delivers_wf _ _ _ _ _ Hd)).
    rewrite Habs, Hmarshal. cbn [files after]. rewrite Hwrite.
    unfold st_run. cbn [trace after]. rewrite <- !app_assoc. reflexivity. }
  split; [exact Hrun' | exact (main_error env st st_run err Hrun')].
Qed.

(** The surroundings of the examples deliver the repository of the test. *)
Lemma delivering_env_delivers args abs marshal write cfg :
  parseArgs (delivering_env args abs marshal write) sample_proc = (sample_proc, Ok cfg) ->
  Config.Help cfg = false -> Config.Version cfg = false ->
  delivers (delivering_env args abs marshal write) sample_proc cfg None test_repository.
Proof.
  intros Hparse Hhelp Hversion. split; [exact Hparse|]. split; [exact Hhelp|].
  split; [exact Hversion|].
  exists 200, "{}", (GraphQLResponse.mk (Some (GraphQLData.mk (Some test_repository))) nil_slice).
  repeat split; try reflexivity; try lia. exact wf_test_nodes.
Qed.

Lemma run_writes_document_witness :
  exists evs,
    main (delivering_env ["-q"; "-o"; "out.json"] ok_abs ok_marshal ok_write) sample_proc
    = (mkProc evs {[ "/work/out.json" := "{}" ]}, Ok tt).
Proof.
  eexists.
  refine (proj1 (proj2 (run_writes_document
    (delivering_env ["-q"; "-o"; "out.json"] ok_abs ok_marshal ok_write) sample_proc
    (set_Output "out.json" (set_Quiet true
       (default_config (delivering_env [] ok_abs ok_marshal ok_write))))
    None test_repository "/work/out.json" "{}" {[ "/work/out.json" := "{}" ]} _ _ _ _))).
  - apply delivering_env_delivers; [vm_compute; reflexivity | reflexivity | reflexivity].
  - reflexivity.
  - reflexivity.
  - vm_compute. reflexivity.
Defined.

Lemma path_failure_writes_nothing_witness :
  exists evs msg,
    run (delivering_env [] (fun _ => inl "getwd: no such file or directory")
           ok_marshal ok_write) sample_proc
    = (mkProc evs ∅, Ok (Some msg)).
Proof.
  eexists. eexists.
  refine (proj1 (path_failure_writes_nothing
    (delivering_env [] (fun _ => inl "getwd: no such file or directory") ok_marshal ok_write)
    sample_proc
    (default_config (delivering_env [] ok_abs ok_marshal ok_write))
    None test_repository "getwd: no such file or directory" _ _)).
  - apply delivering_env_delivers; [vm_compute; reflexivity | reflexivity | reflexivity].
  - reflexivity.
Defined.

Lemma encoding_failure_writes_nothing_witness :
  exists evs msg,
    run (delivering_env [] ok_abs (fun _ => inl "year outside of range [0,9999]") ok_write)
      sample_proc
    = (mkProc evs ∅, Ok (Some msg)).
Proof.
  eexists. eexists.
  refine (proj1 (encoding_failure_writes_nothing
    (delivering_env [] ok_abs (fun _ => inl "year outside of range [0,9999]") ok_write)
    sample_proc
    (default_config (delivering_env [] ok_abs ok_marshal ok_write))
    None test_repository "/work/releases.json" "year outside of range [0,9999]" _ _ _)).
  - apply delivering_env_delivers; [vm_compute; reflexivity | reflexivity | reflexivity].
  - reflexivity.
  - reflexivity.
Defined.

Lemma write_failure_reported_witness :
  exists evs,
    main (delivering_env [] ok_abs ok_marshal (fun fs _ _ => (fs, Some "permission denied")))
      sample_proc
    = (mkProc evs ∅, Exit 1).
Proof.
  eexists.
  refine (proj2 (write_failure_reported
    (delivering_env [] ok_abs ok_marshal (fun fs _ _ => (fs, Some "permission denied")))
    sample_proc
    (default_config (delivering_env [] ok_abs ok_marshal ok_write))
    None test_repository "/work/releases.json" "{}" ∅ "permission denied" _ _ _ _)).
  - apply delivering_env_delivers; [vm_compute; reflexivity | reflexivity | reflexivity].
  - reflexivity.
  - reflexivity.
  - reflexivity.
Defined.

(** What [run_result] can do: print lines that are no requests, and write
    at most the output file. *)
Lemma run_result_effects env cfg res st st' o :
  run_result env cfg res st = (st', o) ->
  exists evs : list event, trace st' = (trace st ++ evs)%list /\ posts evs = [] /\
              wrote_at_most_output env cfg (files st) (files st').
Proof.
  unfold run_result, wrote_at_most_output. destruct st as [tr fs0].
  destruct res as [err|result].
  { intros H. injection H as <- _. exists []. rewrite app_nil_r. auto. }
  destruct (0 <? len (GraphQLResponse.Errors result))%nat.
  { intros H. injection H as <- _. exists []. rewrite app_nil_r. auto. }
  destruct (GraphQLResponse.Data result ≫= GraphQLData.Repository) as [repo|].
  2: { intros H. injection H as <- _. exists []. rewrite app_nil_r. auto. }
  destruct (normalizeData (Releases.Nodes (Repository.Releases repo))) as [releases|m|c|].
  2-4: intros H; injection H as <- _; exists []; rewrite app_nil_r; auto.
  rewrite bind_lift_ok.
  destruct (Config.Quiet cfg); destruct (elems releases) as [|latest l];
    destruct (filepath_Abs env (Config.Output cfg)) as [e1|outPath] eqn:Ea;
    try (destruct (json_MarshalIndent env _) as [e2|file] eqn:Em);
    try (destruct (os_WriteFile env fs0 outPath file) as [fs [e3|]] eqn:Ew);
    unfold bind, when, emit, ret; simpl; rewrite ?Ew; simpl;
    intros H; injection H as <- _; simpl;
    rewrite <- ?app_assoc; simpl;
    (eexists; split; [try reflexivity; symmetry; apply app_nil_r|]);
    (split; [reflexivity|]);
    first [left; reflexivity
          | right; eexists _, _, _; split; [reflexivity|]; split; [exact Em|];
            rewrite Ew; reflexivity].
Qed.

Lemma fetch_events_split cfg close_err :
  fetch_events cfg close_err
  = (before_request cfg
     ++ request_of cfg
        :: (match close_err with Some err => [WarnClose err] | None => [] end ++ [SpinnerStop]))%list.
Proof. unfold fetch_events, before_request, request_of. rewrite <- !app_assoc. reflexivity. Qed.

Lemma posts_app (l1 l2 : list event) : posts (l1 ++ l2) = (posts l1 ++ posts l2)%list.
Proof. apply List.filter_app. Qed.

Lemma posts_before_request cfg : posts (before_request cfg) = [].
Proof.
  unfold before_request. destruct (Config.Quiet cfg), (String.eqb (Config.Token cfg) "");
    reflexivity.
Qed.

(** A run without help or version reaches [run_result] after exactly the
    events of the fetch, whatever the remote does. *)
Lemma run_reaches_result env st st' cfg :
  parseArgs env st = (st', Ok cfg) ->
  Config.Help cfg = false -> Config.Version cfg = false ->
  exists res close_err,
    run env st = run_result env cfg res (after st (fetch_events cfg close_err)) /\
    forall result, res = inr result ->
      exists status body ce,
        http_Do env (Config.Owner cfg) (Config.Repo cfg) (Config.Count cfg) (Config.Token cfg)
        = Response status body ce /\ status < 400 /\ json_Decode env body = inr result.
Proof.
  intros Hparse Hhelp Hversion.
  destruct (http_Do env (Config.Owner cfg) (Config.Repo cfg) (Config.Count cfg)
              (Config.Token cfg)) as [msg|status body ce] eqn:Hhttp.
  - eexists. exists None. split; [apply (run_fetch_transport env st st' cfg msg); assumption|].
    intros result H. discriminate H.
  - eexists. exists ce. split; [apply (run_fetch env st st' cfg status body ce); assumption|].
    intros result H. exists status, body, ce. split; [reflexivity|].
    destruct (status >=? 400) eqn:E; [discriminate H|].
    split; [lia|]. destruct (json_Decode env body); [discriminate H|]. congruence.
Qed.

(** X23: a run without help or version sends exactly one request, with the
    owner, repo, count and token of the configuration; before it only the
    banner, the missing-token warning and the spinner are printed, the
    warning also in quiet mode. *)
Theorem main_sends_one_request env st st' cfg :
  parseArgs env st = (st', Ok cfg) ->
  Config.Help cfg = false -> Config.Version cfg = false ->
  exists st_end o later,
    main env st = (st_end, o) /\
    trace st_end = (trace st ++ before_request cfg ++ request_of cfg :: later)%list /\
    posts (before_request cfg) = [] /\ posts later = [].
Proof.
  intros Hparse Hhelp Hversion.
  destruct (run_reaches_result env st st' cfg Hparse Hhelp Hversion)
    as (res & close_err & Hrun & _).
  destruct (run_result env cfg res (after st (fetch_events cfg close_err)))
    as [st_run o_run] eqn:Hres.
  destruct (run_result_effects _ _ _ _ _ _ Hres) as (evs & Htrace & Hposts & _).
  cbn [trace after] in Htrace.
  rewrite fetch_events_split in Htrace.
  assert (Hw : posts (match close_err with Some err => [WarnClose err] | None => [] end
                      ++ [SpinnerStop]) = []) by (destruct close_err; reflexivity).
  set (warn := (match close_err with Some err => [WarnClose err] | None => [] end
                ++ [SpinnerStop])%list) in *.
  unfold main, bind. rewrite Hrun.
  destruct o_run as [[err|]|msg|code|];
    [exists (after st_run [PrintError err]), (Exit 1), (warn ++ evs ++ [PrintError err])%list
    |exists st_run, (Ok tt), (warn ++ evs)%list
    |exists st_run, (Panic msg), (warn ++ evs)%list
    |exists st_run, (Exit code), (warn ++ evs)%list
    |exists st_run, Timeout, (warn ++ evs)%list];
    (split; [reflexivity|]; cbn [trace emit after];
     split; [|split; [apply posts_before_request|]];
     [rewrite Htrace; rewrite <- ?app_assoc; cbn [app]; rewrite <- ?app_assoc; reflexivity
     |rewrite ?posts_app, Hw, Hposts; reflexivity]).
Qed.

Lemma parseArgs_cases (env : Env) (st : proc) :
  (exists cfg, parseArgs env st = (st, Ok cfg)) \/
  (exists e, e <> ErrHelp /\
             parseArgs env st = (after st [PrintFlagError e; PrintHelp], Exit 2)).
Proof.
  rewrite parseArgs_resolve. unfold resolve_from.
  destruct gale_formal_help as [Hhelp Hh].
  destruct (parse_loop_outcomes (length (os_Args env))
              (gale_flags (os_Args env) (flag_defaults (Getenv env "GITHUB_TOKEN"))) st)
    as [(f' & Hr & _)|(e & Hne & Hr)]; try assumption; try reflexivity.
  - left. eexists. unfold bind. simpl in Hr |- *. rewrite Hr. reflexivity.
  - right. exists e. split; [assumption|].
    unfold bind. simpl in Hr |- *. rewrite Hr. reflexivity.
Qed.

Lemma run_help env st st' cfg :
  parseArgs env st = (st', Ok cfg) -> Config.Help cfg = true ->
  run env st = (after st [PrintBanner; PrintHelp], Ok None).
Proof.
  intros Hparse Hhelp. pose proof (parseArgs_silent env _ _ _ Hparse) as ->.
  unfold run. rewrite (bind_ok_eq _ _ _ _ _ Hparse). rewrite Hhelp.
  unfold bind, showBanner, showHelp, emit, ret, after. simpl.
  rewrite <- app_assoc. reflexivity.
Qed.

Lemma run_version env st st' cfg :
  parseArgs env st = (st', Ok cfg) -> Config.Help cfg = false -> Config.Version cfg = true ->
  run env st = (after st [PrintVersion], Ok None).
Proof.
  intros Hparse Hhelp Hversion. pose proof (parseArgs_silent env _ _ _ Hparse) as ->.
  unfold run. rewrite (bind_ok_eq _ _ _ _ _ Hparse). rewrite Hhelp, Hversion. reflexivity.
Qed.

(** [main] keeps the files that [run] leaves. *)
Lemma main_files env st st_run o_run :
  run env st = (st_run, o_run) ->
  exists st_end o, main env st = (st_end, o) /\ files st_end = files st_run.
Proof.
  intros H. unfold main, bind. rewrite H.
  destruct o_run as [[err|]| | |]; eexists _, _; split; reflexivity.
Qed.

(** X24: whatever the command line and the remote, the process changes the
    files by at most one call of [os.WriteFile], made on the resolved
    output path with an encoded document, in a run without help or
    version. *)
Theorem main_writes_at_most_output (env : Env) (st : proc) :
  let st_end := fst (main env st) in
  files st_end = files st \/
  exists cfg,
    parseArgs env st = (st, Ok cfg) /\
    Config.Help cfg = false /\ Config.Version cfg = false /\
    wrote_at_most_output env cfg (files st) (files st_end).
Proof.
  intros st_end. subst st_end.
  destruct (parseArgs_cases env st) as [(cfg & Hparse)|(e & _ & Hparse)].
  - destruct (Config.Help cfg) eqn:Hhelp.
    { left. pose proof (run_help env st st cfg Hparse Hhelp) as Hrun.
      destruct (main_files _ _ _ _ Hrun) as (s & o' & Hm & Hf).
      rewrite Hm. cbn [fst]. rewrite Hf. reflexivity. }
    destruct (Config.Version cfg) eqn:Hversion.
    { left. pose proof (run_version env st st cfg Hparse Hhelp Hversion) as Hrun.
      destruct (main_files _ _ _ _ Hrun) as (s & o' & Hm & Hf).
      rewrite Hm. cbn [fst]. rewrite Hf. reflexivity. }
    right. exists cfg. repeat split; try assumption.
    destruct (run_reaches_result env st st cfg Hparse Hhelp Hversion)
      as (res & close_err & Hrun & _).
    destruct (run_result env cfg res (after st (fetch_events cfg close_err)))
      as [st_run o_run] eqn:Hres.
    destruct (run_result_effects _ _ _ _ _ _ Hres) as (evs & _ & _ & Hw).
    destruct (main_files _ _ _ _ Hrun) as (s & o' & Hm & Hf).
    rewrite Hm. cbn [fst]. rewrite Hf. exact Hw.
  - left. rewrite (main_parse_exit _ _ _ _ Hparse). reflexivity.
Qed.

(** [run_result] returns, with or without an error, when the data it is
    given has 64-bit asset sizes. *)
Lemma run_result_returns env cfg res st :
  (forall result repo, res = inr result -> repository_of result = Some repo ->
     wf_releases (Releases.Nodes (Repository.Releases repo))) ->
  exists st' err, run_result env cfg res st = (st', Ok err).
Proof.
  intros Hwf. destruct res as [e|result]; [eexists _, _; reflexivity|].
  destruct (len (GraphQLResponse.Errors result)) as [|n] eqn:Herrors.
  - destruct (repository_of result) as [repo|] eqn:Hrepo.
    + rewrite (run_result_repository env cfg result repo st Herrors Hrepo
                 (Hwf result repo eq_refl Hrepo)).
      destruct (filepath_Abs env (Config.Output cfg)); [eexists _, _; reflexivity|].
      destruct (json_MarshalIndent env _); [eexists _, _; reflexivity|].
      destruct (os_WriteFile env (files st) _ _) as [fs [e3|]]; eexists _, _; reflexivity.
    + unfold run_result. rewrite Herrors. cbn [Nat.ltb Nat.leb].
      unfold repository_of in Hrepo. rewrite Hrepo. eexists _, _; reflexivity.
  - unfold run_result. rewrite Herrors. cbn [Nat.ltb Nat.leb]. eexists _, _; reflexivity.
Qed.

(** X25: when the decoder yields 64-bit asset sizes, the process always ends
    by returning from [main] or by exiting with status 1 or 2: it never
    panics, whatever the command line, the remote and the file system. *)
Theorem main_ends_with_status_0_1_2 (env : Env) (st : proc) :
  decodes_int64 env ->
  snd (main env st) = Ok tt \/ snd (main env st) = Exit 1 \/ snd (main env st) = Exit 2.
Proof.
  intros Hdec.
  destruct (parseArgs_cases env st) as [(cfg & Hparse)|(e & _ & Hparse)].
  - assert (Hrun : exists st_run err, run env st = (st_run, Ok err)).
    { destruct (Config.Help cfg) eqn:Hhelp;
        [eexists _, _; exact (run_help env st st cfg Hparse Hhelp)|].
      destruct (Config.Version cfg) eqn:Hversion;
        [eexists _, _; exact (run_version env st st cfg Hparse Hhelp Hversion)|].
      destruct (run_reaches_result env st st cfg Hparse Hhelp Hversion)
        as (res & close_err & Hrun & Hres).
      destruct (run_result_returns env cfg res (after st (fetch_events cfg close_err)))
        as (st_run & err & Hr).
      { intros result repo -> Hrepo.
        destruct (Hres result eq_refl) as (status & body & ce & _ & _ & Hdecode).
        exact (Hdec body result repo Hdecode Hrepo). }
      exists st_run, err. congruence. }
    destruct Hrun as (st_run & [err|] & Hrun).
    + right. left. rewrite (main_error _ _ _ _ Hrun). reflexivity.
    + left. rewrite (main_success _ _ _ Hrun). reflexivity.
  - right. right. rewrite (main_parse_exit _ _ _ _ Hparse). reflexivity.
Qed.

(** X26: [fetchGraphQL] sends one request and then warns exactly when the
    remote answered with a response whose body fails to close, with the
    message of that failure; it yields a response exactly when the status
    is below 400 and the body decodes, whether or not the body closes. *)
Theorem fetchGraphQL_outcomes (env : Env) (owner repo : string) (first : Z)
    (token : string) (st : proc) :
  exists res,
    fetchGraphQL env owner repo first token st
    = (after st (HttpPost owner repo first token
                 :: close_warning (http_Do env owner repo first token)), Ok res) /\
    forall response,
      res = inr response <->
      exists status body close_err,
        http_Do env owner repo first token = Response status body close_err /\
        status < 400 /\ json_Decode env body = inr response.
Proof.
  unfold fetchGraphQL.
  destruct (http_Do env owner repo first token) as [msg|status body close_err].
  - eexists. split; [reflexivity|].
    intros response. split; [intros H; discriminate H|].
    intros (s & b & c & H & _). discriminate H.
  - destruct (Z.geb_spec status 400) as [Hge|Hlt].
    + eexists. split.
      { destruct close_err as [msg|]; unfold bind, emit, ret, after; simpl;
          rewrite <- ?app_assoc; reflexivity. }
      intros response. split; [intros H; discriminate H|].
      intros (s & b & c & H & Hs & _). injection H as -> _ _. lia.
    + eexists. split.
      { destruct close_err as [msg|]; unfold bind, emit, ret, after; simpl;
          rewrite <- ?app_assoc; reflexivity. }
      intros response. split.
      * intros H. exists status, body, close_err. split; [reflexivity|]. split; [lia|].
        destruct (json_Decode env body); [discriminate H | congruence].
      * intros (s & b & c & H & _ & Hd). injection H as -> -> _. rewrite Hd. reflexivity.
Qed.

Lemma main_ends_with_status_0_1_2_witness :
  snd (main (delivering_env ["cli"; "gh"] ok_abs ok_marshal ok_write) sample_proc) = Ok tt.
Proof.
  destruct (main_ends_with_status_0_1_2
              (delivering_env ["cli"; "gh"] ok_abs ok_marshal ok_write) sample_proc)
    as [H|[H|H]].
  - intros body result repo Hdecode Hrepo. injection Hdecode as <-.
    injection Hrepo as <-. exact wf_test_nodes.
  - exact H.
  - vm_compute in H. discriminate H.
  - vm_compute in H. discriminate H.
Defined.

Lemma transport_failure_aborts_witness :
  main (remote_env ["-q"; "-t"; "secret"] (TransportError "no such host")
          (fun _ => inl "unexpected end of JSON input")) sample_proc
  = (mkProc [HttpPost "Typeflu" "gale" 10 "secret"; SpinnerStop;
             PrintError "failed to send request to GitHub API: no such host"] ∅, Exit 1).
Proof.
  refine (proj2 (proj2 (transport_failure_aborts
    (remote_env ["-q"; "-t"; "secret"] (TransportError "no such host")
       (fun _ => inl "unexpected end of JSON input"))
    sample_proc sample_proc
    (set_Token "secret" (set_Quiet true (default_config (sample_env []))))
    "no such host" _ _ _ _))).
  - vm_compute. reflexivity.
  - reflexivity.
  - reflexivity.
  - reflexivity.
Defined.

Lemma decode_failure_aborts_witness :
  main (remote_env ["-q"; "-t"; "secret"] (Response 200 "<html>" None)
          (fun _ => inl "invalid character")) sample_proc
  = (mkProc [HttpPost "Typeflu" "gale" 10 "secret"; SpinnerStop;
             PrintError "failed to decode GitHub API response: invalid character"] ∅,
     Exit 1).
Proof.
  refine (proj2 (proj2 (decode_failure_aborts
    (remote_env ["-q"; "-t"; "secret"] (Response 200 "<html>" None)
       (fun _ => inl "invalid character"))
    sample_proc sample_proc
    (set_Token "secret" (set_Quiet true (default_config (sample_env []))))
    200 "<html>" None "invalid character" _ _ _ _ _ _))).
  - vm_compute. reflexivity.
  - reflexivity.
  - reflexivity.
  - reflexivity.
  - lia.
  - reflexivity.
Defined.

Lemma missing_repository_aborts_witness :
  main (remote_env ["-q"; "-t"; "secret"; "nobody"; "nothing"] (Response 200 "{}" None)
          (fun _ => inr (GraphQLResponse.mk (Some (GraphQLData.mk None)) nil_slice)))
    sample_proc
  = (mkProc [HttpPost "nobody" "nothing" 10 "secret"; SpinnerStop;
             PrintError "repository not found or access denied"] ∅, Exit 1).
Proof.
  refine (proj2 (proj2 (missing_repository_aborts
    (remote_env ["-q"; "-t"; "secret"; "nobody"; "nothing"] (Response 200 "{}" None)
       (fun _ => inr (GraphQLResponse.mk (Some (GraphQLData.mk None)) nil_slice)))
    sample_proc sample_proc
    (set_Repo "nothing" (set_Owner "nobody"
       (set_Token "secret" (set_Quiet true (default_config (sample_env []))))))
    200 "{}" None (GraphQLResponse.mk (Some (GraphQLData.mk None)) nil_slice)
    _ _ _ _ _ _ _ _))).
  - vm_compute. reflexivity.
  - reflexivity.
  - reflexivity.
  - reflexivity.
  - lia.
  - reflexivity.
  - reflexivity.
  - reflexivity.
Defined.

Lemma version_prints_only_version_witness :
  main (sample_env ["--version"]) sample_proc = (mkProc [PrintVersion] ∅, Ok tt).
Proof.
  refine (proj1 (proj2 (version_prints_only_version (sample_env ["--version"])
    sample_proc sample_proc (set_Version true (default_config (sample_env []))) _ _ _))).
  - vm_compute. reflexivity.
  - reflexivity.
  - reflexivity.
Defined.

Lemma main_sends_one_request_witness :
  exists st_end o later,
    main (sample_env ["-q"]) sample_proc = (st_end, o) /\
    trace st_end = ([WarnNoToken] ++ HttpPost "Typeflu" "gale" 10 "" :: later)%list /\
    posts later = [].
Proof.
  destruct (main_sends_one_request (sample_env ["-q"]) sample_proc sample_proc
              (set_Quiet true (default_config (sample_env []))))
    as (st_end & o & later & Hmain & Htrace & _ & Hlater).
  - vm_compute. reflexivity.
  - reflexivity.
  - reflexivity.
  - exists st_end, o, later. split; [exact Hmain|]. split; [exact Htrace | exact Hlater].
Defined.
